(** * StampDispenser: the denomination validator and the memoised
      minimum-stamp-count solver of [StampDispenser.cpp].

    The C++ class is embedded shallowly.  An [int] is a [Z] together with the
    32-bit bounds [INT_MIN] and [INT_MAX]; an operation that C++ leaves
    undefined (division by zero, signed overflow, indexing a vector outside
    its size) or that trips an [assert] ends the run with a [fault] naming
    what happened.  The memoisation vector is a [list Z] read with stdpp's
    lookup and written with stdpp's insert, both behind a bounds check.  The
    recursion of [CalcNumStamps] is driven by a fuel counter; the theorems
    show that the fuel the caller hands over is always enough. *)

From Stdlib Require Import ZArith Zquot List Lia Bool.
From stdpp Require Import base numbers list.

Local Open Scope Z_scope.

(** ** Machine integers *)

Definition INT_MAX : Z := 2147483647.
Definition INT_MIN : Z := -2147483648.

Definition is_int (z : Z) : Prop := INT_MIN <= z <= INT_MAX.

Definition is_intb (z : Z) : bool := (INT_MIN <=? z) && (z <=? INT_MAX).

(** ** Outcomes *)

(** Why a run stopped early.  The first five are the [assert]s of the source,
    in source order; the others are the undefined behaviours the arithmetic
    and the vector accesses can run into, and the exhaustion of the fuel of
    the model. *)
Inductive fault : Type :=
| AssertNumDenominations   (* assert(0 < numStampDenominations) *)
| AssertDescending         (* assert(lastVal >= stampDenominations[i]) *)
| AssertNonNegative        (* assert(stampDenominations[i] >= 0) *)
| AssertOneFound           (* assert(oneFound) *)
| AssertRequest            (* assert(request >= 0) *)
| DivideByZero
| SignedOverflow
| IndexOutOfRange
| OutOfFuel.

Inductive outcome (A : Type) : Type :=
| Ok (a : A)
| Abort (f : fault).

Arguments Ok {A} a.
Arguments Abort {A} f.

(** The two error kinds of the public contract. *)
Definition InvalidDenominationSet (f : fault) : Prop :=
  f = AssertNumDenominations \/ f = AssertDescending \/
  f = AssertNonNegative \/ f = AssertOneFound.

Definition InvalidRequest (f : fault) : Prop := f = AssertRequest.

(** ** The object *)

Record StampDispenser : Type := { m_denominationVector : list Z }.

(** ** ValidateInput *)

(** The pair [const int* stampDenominations, size_t numStampDenominations] is
    the list of the [numStampDenominations] elements the pointer leads to;
    the list is taken to be shorter than 2^32, so that the [unsigned int]
    counter of the loops reaches its end. *)

(** The body of the [for] loop of [ValidateInput], from index [i] on, with the
    two locals [oneFound] and [lastVal] passed along. *)
Fixpoint ValidateInput_loop (stampDenominations : list Z)
    (oneFound : bool) (lastVal : Z) : outcome bool :=
  match stampDenominations with
  | [] => Ok oneFound
  | x :: rest =>
      if negb (lastVal >=? x) then Abort AssertDescending
      else if negb (x >=? 0) then Abort AssertNonNegative
      else ValidateInput_loop rest (if 1 =? x then true else oneFound) x
  end.

Definition ValidateInput (stampDenominations : list Z) : outcome bool :=
  if negb (0 <? Z.of_nat (length stampDenominations))
  then Abort AssertNumDenominations
  else match ValidateInput_loop stampDenominations false INT_MAX with
       | Abort f => Abort f
       | Ok oneFound => if oneFound then Ok true else Abort AssertOneFound
       end.

(** The constructor: validate, then [push_back] the elements one by one. *)
Definition push_all (stampDenominations : list Z) (v : list Z) : list Z :=
  fold_left (fun v x => v ++ [x]) stampDenominations v.

Definition new_StampDispenser (stampDenominations : list Z)
  : outcome StampDispenser :=
  match ValidateInput stampDenominations with
  | Abort f => Abort f
  | Ok true => Ok {| m_denominationVector := push_all stampDenominations [] |}
  | Ok false => Ok {| m_denominationVector := [] |}
  end.

(** ** The state of a query *)

(** [CalcNumStamps] runs on the object and on the vector it got by reference. *)
Record frame : Type := {
  this : StampDispenser;
  memoizationVect : list Z
}.

Definition M (A : Type) : Type := frame -> outcome A * frame.

Definition ret {A} (a : A) : M A := fun fr => (Ok a, fr).

Definition abort {A} (f : fault) : M A := fun fr => (Abort f, fr).

Definition bind {A B} (c : M A) (k : A -> M B) : M B :=
  fun fr =>
    match c fr with
    | (Ok a, fr') => k a fr'
    | (Abort f, fr') => (Abort f, fr')
    end.

Notation "x <- c ;; k" := (bind c (fun x => k))
  (at level 90, c at next level, right associativity).
Notation "c ;;; k" := (bind c (fun _ => k))
  (at level 90, right associativity).

(** [int] arithmetic. *)
Definition int_div (a b : Z) : M Z :=
  if b =? 0 then abort DivideByZero
  else if (a =? INT_MIN) && (b =? -1) then abort SignedOverflow
  else ret (Z.quot a b).

Definition int_rem (a b : Z) : M Z :=
  if b =? 0 then abort DivideByZero
  else if (a =? INT_MIN) && (b =? -1) then abort SignedOverflow
  else ret (Z.rem a b).

Definition int_add (a b : Z) : M Z :=
  if is_intb (a + b) then ret (a + b) else abort SignedOverflow.

(** [memoizationVect[i]] as an rvalue and as the target of an assignment. *)
Definition memo_get (i : Z) : M Z :=
  fun fr =>
    if i <? 0 then (Abort IndexOutOfRange, fr)
    else match memoizationVect fr !! Z.to_nat i with
         | Some v => (Ok v, fr)
         | None => (Abort IndexOutOfRange, fr)
         end.

Definition memo_set (i v : Z) : M unit :=
  fun fr =>
    if (i <? 0) || (Z.of_nat (length (memoizationVect fr)) <=? i)
    then (Abort IndexOutOfRange, fr)
    else (Ok tt, {| this := this fr;
                    memoizationVect := <[Z.to_nat i := v]> (memoizationVect fr) |}).

(** The iteration over [m_denominationVector]: the loop variable is the
    running [min_val]. *)
Fixpoint for_each (it : list Z) (body : Z -> Z -> M Z) (min_val : Z) : M Z :=
  match it with
  | [] => ret min_val
  | d :: rest => min_val' <- body min_val d ;; for_each rest body min_val'
  end.

(** ** CalcNumStamps *)

Fixpoint CalcNumStamps (fuel : nat) (request : Z) : M Z :=
  match fuel with
  | O => abort OutOfFuel
  | S fuel' =>
      cached <- memo_get request ;;
      if cached >=? 0 then memo_get request
      else if 0 =? request then ret 0
      else
        min_val <-
          (fun fr =>
             for_each (m_denominationVector (this fr))
               (fun min_val d =>
                  q <- int_div request d ;;
                  if q >? 0 then
                    q <- int_div request d ;;
                    r <- int_rem request d ;;
                    n <- CalcNumStamps fuel' r ;;
                    s <- int_add q n ;;
                    ret (Z.min min_val s)
                  else ret min_val)
               INT_MAX fr) ;;
        memo_set request min_val ;;;
        ret min_val
  end.

(** ** CalcNumStampsToFillRequest *)

(** [for (int i = 0; i <= request; i++) memoizationVect.push_back(-1);]
    The increment of [i] overflows when [i] is [INT_MAX]. *)
Fixpoint fill_memo (fuel : nat) (i request : Z) (memoizationVect : list Z)
  : outcome (list Z) :=
  match fuel with
  | O => Abort OutOfFuel
  | S fuel' =>
      if i <=? request then
        let memoizationVect' := memoizationVect ++ [-1] in
        if i <? INT_MAX then fill_memo fuel' (i + 1) request memoizationVect'
        else Abort SignedOverflow
      else Ok memoizationVect
  end.

Definition CalcNumStampsToFillRequest (request : Z) (s : StampDispenser)
  : outcome Z * StampDispenser :=
  if negb (request >=? 0) then (Abort AssertRequest, s)
  else
    match fill_memo (Z.to_nat request + 2) 0 request [] with
    | Abort f => (Abort f, s)
    | Ok memoizationVect =>
        let (res, fr) :=
          CalcNumStamps (S (Z.to_nat request)) request
            {| this := s; memoizationVect := memoizationVect |} in
        (res, this fr)
    end.

(** The public query, as a caller sees its value. *)
Definition minCount (s : StampDispenser) (request : Z) : outcome Z :=
  fst (CalcNumStampsToFillRequest request s).

(** ** The shipped dispensers *)

Definition stampDenominations : list Z := [90; 30; 24; 10; 6; 2; 1].
Definition stampDenominations2 : list Z := [6; 4; 1].

(** ** What the validator checks *)

(** Each element is at most the one before it. *)
Definition non_increasing (l : list Z) : Prop :=
  forall (i : nat) (x y : Z), l !! i = Some x -> l !! S i = Some y -> y <= x.

Definition non_negative (l : list Z) : Prop := Forall (fun x => 0 <= x) l.

Definition valid_denominations (l : list Z) : Prop :=
  l <> [] /\ non_increasing l /\ non_negative l /\ In 1 l.

(** The check an assertion stands for does not hold of [l]. *)
Definition check_failed (f : fault) (l : list Z) : Prop :=
  match f with
  | AssertNumDenominations => l = []
  | AssertDescending => ~ non_increasing l
  | AssertNonNegative => ~ non_negative l
  | AssertOneFound => ~ In 1 l
  | _ => False
  end.

(** ** Predicates on runs *)

(** A computation that hands back the [this] it was given, however it ends. *)
Definition keeps_this {A} (c : M A) : Prop :=
  forall fr, this (snd (c fr)) = this fr.

(** The body of the loop of [CalcNumStamps], with the recursive call named. *)
Definition stamp_body (rec : Z -> M Z) (request : Z) : Z -> Z -> M Z :=
  fun min_val d =>
    q <- int_div request d ;;
    if q >? 0 then
      q <- int_div request d ;;
      r <- int_rem request d ;;
      n <- rec r ;;
      s <- int_add q n ;;
      ret (Z.min min_val s)
    else ret min_val.

(** ** The recurrence the memoised code computes *)

(** One turn of the loop, with the recursive call replaced by [rec]. *)
Definition candidate (rec : Z -> Z) (request min_val d : Z) : Z :=
  if Z.quot request d >? 0
  then Z.min min_val (Z.quot request d + rec (Z.rem request d))
  else min_val.

(** [CalcNumStamps] without its vector and without its faults. *)
Fixpoint stamps (dens : list Z) (fuel : nat) (request : Z) : Z :=
  match fuel with
  | O => 0
  | S fuel' =>
      if 0 =? request then 0
      else fold_left (candidate (stamps dens fuel') request) dens INT_MAX
  end.

Definition numStamps (dens : list Z) (request : Z) : Z :=
  stamps dens (S (Z.to_nat request)) request.

(** Every entry that is not the sentinel is the count of its index. *)
Definition memo_ok (dens memo : list Z) : Prop :=
  forall (i : nat) (v : Z),
    memo !! i = Some v -> 0 <= v -> v = numStamps dens (Z.of_nat i).

(** What a call on the object [s] leaves behind: the value [v], the same
    object, and a vector of the same size that still satisfies [memo_ok]. *)
Definition returns (s : StampDispenser) (c : M Z) (memo : list Z) (v : Z) : Prop :=
  exists memo',
    c {| this := s; memoizationVect := memo |}
      = (Ok v, {| this := s; memoizationVect := memo' |}) /\
    length memo' = length memo /\ memo_ok (m_denominationVector s) memo'.

(** No entry has been filled in. *)
Definition all_sentinel (memo : list Z) : Prop :=
  forall (i : nat) (v : Z), memo !! i = Some v -> v = -1.

(** A computation that never stops for want of fuel. *)
Definition fuelled {A} (c : M A) : Prop :=
  forall fr, fst (c fr) <> Abort OutOfFuel.

(** ** The canonical recursion *)

(** The lesser of two counts, [None] standing for no count at all. *)
Definition opt_min (a b : option Z) : option Z :=
  match a, b with
  | Some x, Some y => Some (Z.min x y)
  | Some x, None => Some x
  | None, _ => b
  end.

(** The canonical minimum-coin-change recursion as the specification words
    it: [1 + minCount(request - d)], minimised over every denomination
    [d <= request]. *)
Fixpoint canonicalMinCount (dens : list Z) (fuel : nat) (request : Z)
  : option Z :=
  match fuel with
  | O => None
  | S fuel' =>
      if request =? 0 then Some 0
      else fold_left
             (fun best d =>
                if d <=? request
                then opt_min best
                       (option_map (Z.add 1)
                          (canonicalMinCount dens fuel' (request - d)))
                else best)
             dens None
  end.

(** A multiset of stamps of the dispenser that adds up to the request. *)
Definition fills (dens stamps : list Z) (request : Z) : Prop :=
  Forall (fun x => In x dens) stamps /\ fold_right Z.add 0 stamps = request.

(** ** Repeated queries *)

(** [n] calls in a row on the same object, each on the object the previous
    call left behind. *)
Fixpoint query_n (n : nat) (request : Z) (s : StampDispenser)
  : list (outcome Z) * StampDispenser :=
  match n with
  | O => ([], s)
  | S n' =>
      let (res, s') := CalcNumStampsToFillRequest request s in
      let (rest, s'') := query_n n' request s' in
      (res :: rest, s'')
  end.

(** ** Measures and comparisons for the further properties *)

(** The stamps a request can use: positive and at most the request. *)
Definition usable_stamps (dens : list Z) (request : Z) : list Z :=
  List.filter (fun d => (0 <? d) && (d <=? request)) dens.

(** A computation that leaves the vector at the size it found it. *)
Definition keeps_size {A} (c : M A) : Prop :=
  forall fr,
    length (memoizationVect (snd (c fr))) = length (memoizationVect fr).

(** A computation that never stops for want of fuel when run on the
    object [s]. *)
Definition fuelled_on (s : StampDispenser) {A} (c : M A) : Prop :=
  forall fr, this fr = s -> fst (c fr) <> Abort OutOfFuel.

(** [c2] does what [c1] does wherever [c1] has fuel enough. *)
Definition agrees {A} (c1 c2 : M A) : Prop :=
  forall fr, fst (c1 fr) <> Abort OutOfFuel -> c2 fr = c1 fr.

(** The cashier's algorithm the comment in [main] compares with: go through
    the stamps in the order of the vector and take each as often as it still
    fits. *)
Fixpoint greedy (dens : list Z) (request : Z) : Z :=
  match dens with
  | [] => 0
  | d :: rest =>
      if 0 <? d then request / d + greedy rest (request mod d)
      else greedy rest request
  end.

(** * Properties *)

Example main_first :
  new_StampDispenser stampDenominations = Ok {| m_denominationVector := stampDenominations |}.
Proof. reflexivity. Qed.

(** ** Validation *)

Section Validation.

Lemma push_all_app (l v : list Z) : push_all l v = v ++ l.
Proof.
  revert v; induction l as [|x l IH]; intros v; simpl.
  - now rewrite app_nil_r.
  - unfold push_all in *; simpl. rewrite IH, <- app_assoc. reflexivity.
Qed.

Lemma non_increasing_cons (x : Z) (l : list Z) :
  non_increasing (x :: l) <->
  (forall y, head l = Some y -> y <= x) /\ non_increasing l.
Proof.
  unfold non_increasing; split.
  - intros H; split.
    + intros y Hy. destruct l as [|z l]; [discriminate|].
      injection Hy as ->. apply (H 0%nat x y); reflexivity.
    + intros i a b Ha Hb. apply (H (S i) a b); assumption.
  - intros [Hhd Htl] [|i] a b Ha Hb; simpl in *.
    + injection Ha as <-. apply Hhd. destruct l; simpl in *; congruence.
    + eapply Htl; eassumption.
Qed.

Lemma non_increasing_nil : non_increasing [].
Proof. intros i x y H; discriminate. Qed.

(** A completed loop has seen a descending, non-negative run below
    [lastVal] and reports whether a [1] occurred. *)
Lemma ValidateInput_loop_Ok (l : list Z) :
  forall oneFound lastVal b,
    ValidateInput_loop l oneFound lastVal = Ok b <->
    non_increasing (lastVal :: l) /\ non_negative l /\
    b = (oneFound || existsb (Z.eqb 1) l)%bool.
Proof.
  induction l as [|x l IH]; intros oneFound lastVal b;
    cbn [ValidateInput_loop existsb].
  - rewrite orb_false_r. split.
    + intros [= <-]. repeat split.
      * intros [|i] ? ? ? ?; discriminate.
      * constructor.
    + intros (_ & _ & ->). reflexivity.
  - rewrite (non_increasing_cons lastVal). cbn [head].
    destruct (Z.geb_spec lastVal x) as [Hle|Hgt]; cbn [negb].
    2:{ split; [discriminate|]. intros [[H _] _]. specialize (H x eq_refl). lia. }
    destruct (Z.geb_spec x 0) as [Hx|Hx]; cbn [negb].
    2:{ split; [discriminate|]. intros (_ & H & _). inversion H; subst. lia. }
    rewrite IH. unfold non_negative. rewrite Forall_cons.
    assert (Hb : ((if 1 =? x then true else oneFound) || existsb (Z.eqb 1) l
                  = oneFound || ((1 =? x) || existsb (Z.eqb 1) l))%bool)
      by (destruct (1 =? x), oneFound; reflexivity).
    rewrite Hb. split.
    + intros (H0 & H & H2). repeat split; try assumption; try lia.
      intros y [= <-]. lia.
    + intros ((_ & H0) & (_ & H) & H2). repeat split; assumption.
Qed.

(** An aborted loop names a check that fails on the run it was given. *)
Lemma ValidateInput_loop_Abort (l : list Z) :
  forall oneFound lastVal f,
    ValidateInput_loop l oneFound lastVal = Abort f ->
    (f = AssertDescending /\ ~ non_increasing (lastVal :: l)) \/
    (f = AssertNonNegative /\ ~ non_negative l).
Proof.
  induction l as [|x l IH]; intros oneFound lastVal f;
    cbn [ValidateInput_loop]; [discriminate|].
  rewrite (non_increasing_cons lastVal). cbn [head].
  destruct (Z.geb_spec lastVal x) as [Hle|Hgt]; cbn [negb].
  2:{ intros [= <-]. left. split; [reflexivity|].
      intros [H _]. specialize (H x eq_refl). lia. }
  destruct (Z.geb_spec x 0) as [Hx|Hx]; cbn [negb].
  2:{ intros [= <-]. right. split; [reflexivity|].
      intros H. inversion H; subst. lia. }
  intros H. apply IH in H as [[-> H]|[-> H]].
  - left. split; [reflexivity|]. tauto.
  - right. split; [reflexivity|]. intros H'. inversion H'; subst. auto.
Qed.

Lemma existsb_eqb_In (l : list Z) : existsb (Z.eqb 1) l = true <-> In 1 l.
Proof.
  rewrite existsb_exists. split.
  - intros (x & Hx & Heq). apply Z.eqb_eq in Heq. now subst.
  - intros H. exists 1. split; [assumption | reflexivity].
Qed.

(** The first comparison, against [INT_MAX], never fails on an [int]. *)
Lemma non_increasing_INT_MAX (l : list Z) :
  Forall is_int l -> (non_increasing (INT_MAX :: l) <-> non_increasing l).
Proof.
  intros Hl. rewrite non_increasing_cons. split; [tauto|].
  intros H; split; [|assumption].
  intros y Hy. destruct l as [|z l]; [discriminate|].
  injection Hy as ->. inversion Hl; subst. unfold is_int in *. lia.
Qed.

Lemma ValidateInput_Ok (l : list Z) :
  Forall is_int l ->
  (ValidateInput l = Ok true <-> valid_denominations l).
Proof.
  intros Hl. unfold ValidateInput, valid_denominations.
  destruct l as [|x l]; [simpl; split; [discriminate | tauto]|].
  replace (negb (0 <? Z.of_nat (length (x :: l)))) with false
    by (symmetry; apply negb_false_iff, Z.ltb_lt; simpl; lia).
  destruct (ValidateInput_loop (x :: l) false INT_MAX) as [b|f] eqn:E.
  - apply ValidateInput_loop_Ok in E as (Hd & Hn & ->).
    rewrite non_increasing_INT_MAX in Hd by assumption.
    rewrite orb_false_l. rewrite <- existsb_eqb_In.
    destruct (existsb (Z.eqb 1) (x :: l)).
    + intuition congruence.
    + split; [discriminate|]. intros (_ & _ & _ & ?); discriminate.
  - split; [discriminate|]. intros (_ & Hd & Hn & _).
    apply ValidateInput_loop_Abort in E as [[_ H]|[_ H]].
    + rewrite non_increasing_INT_MAX in H by assumption. contradiction.
    + contradiction.
Qed.

Lemma ValidateInput_never_false (l : list Z) : ValidateInput l <> Ok false.
Proof.
  unfold ValidateInput.
  destruct (negb _); [discriminate|].
  destruct (ValidateInput_loop l false INT_MAX) as [[|]|f]; discriminate.
Qed.

Lemma ValidateInput_Abort (l : list Z) (f : fault) :
  Forall is_int l ->
  ValidateInput l = Abort f -> InvalidDenominationSet f /\ check_failed f l.
Proof.
  intros Hl. unfold ValidateInput, InvalidDenominationSet.
  destruct l as [|x l]; [simpl; intros [= <-]; simpl; tauto|].
  replace (negb (0 <? Z.of_nat (length (x :: l)))) with false
    by (symmetry; apply negb_false_iff, Z.ltb_lt; simpl; lia).
  destruct (ValidateInput_loop (x :: l) false INT_MAX) as [b|f'] eqn:E.
  - apply ValidateInput_loop_Ok in E as (Hd & Hn & ->).
    rewrite orb_false_l.
    destruct (existsb (Z.eqb 1) (x :: l)) eqn:E1; [discriminate|].
    intros [= <-]. split; [tauto|]. cbn [check_failed].
    rewrite <- existsb_eqb_In, E1. discriminate.
  - intros [= <-].
    apply ValidateInput_loop_Abort in E as [[-> H]|[-> H]].
    + rewrite non_increasing_INT_MAX in H by assumption. split; [tauto | exact H].
    + split; [tauto | exact H].
Qed.

End Validation.

(** ** The query leaves the object alone *)

Section Frame.

Lemma keeps_ret {A} (a : A) : keeps_this (ret a).
Proof. intros fr; reflexivity. Qed.

Lemma keeps_abort {A} (f : fault) : keeps_this (@abort A f).
Proof. intros fr; reflexivity. Qed.

Lemma keeps_bind {A B} (c : M A) (k : A -> M B) :
  keeps_this c -> (forall a, keeps_this (k a)) -> keeps_this (bind c k).
Proof.
  intros Hc Hk fr. unfold bind. specialize (Hc fr).
  destruct (c fr) as [[a|f] fr']; simpl in *.
  - rewrite Hk. assumption.
  - assumption.
Qed.

Lemma keeps_int_div (a b : Z) : keeps_this (int_div a b).
Proof.
  unfold int_div. destruct (b =? 0); [apply keeps_abort|].
  destruct (_ && _); [apply keeps_abort | apply keeps_ret].
Qed.

Lemma keeps_int_rem (a b : Z) : keeps_this (int_rem a b).
Proof.
  unfold int_rem. destruct (b =? 0); [apply keeps_abort|].
  destruct (_ && _); [apply keeps_abort | apply keeps_ret].
Qed.

Lemma keeps_int_add (a b : Z) : keeps_this (int_add a b).
Proof.
  unfold int_add. destruct (is_intb _); [apply keeps_ret | apply keeps_abort].
Qed.

Lemma keeps_memo_get (i : Z) : keeps_this (memo_get i).
Proof.
  intros fr. unfold memo_get. destruct (i <? 0); [reflexivity|].
  destruct (_ !! _); reflexivity.
Qed.

Lemma keeps_memo_set (i v : Z) : keeps_this (memo_set i v).
Proof.
  intros fr. unfold memo_set. destruct (_ || _); reflexivity.
Qed.

Lemma keeps_for_each (it : list Z) (body : Z -> Z -> M Z) :
  (forall m d, keeps_this (body m d)) ->
  forall min_val, keeps_this (for_each it body min_val).
Proof.
  intros Hb. induction it as [|d rest IH]; intros min_val; simpl.
  - apply keeps_ret.
  - apply keeps_bind; [apply Hb | intros a; apply IH].
Qed.

Lemma keeps_CalcNumStamps (fuel : nat) :
  forall request, keeps_this (CalcNumStamps fuel request).
Proof.
  induction fuel as [|fuel IH]; intros request; cbn [CalcNumStamps].
  - apply keeps_abort.
  - apply keeps_bind; [apply keeps_memo_get|]. intros cached.
    destruct (cached >=? 0); [apply keeps_memo_get|].
    destruct (0 =? request); [apply keeps_ret|].
    apply keeps_bind.
    + intros fr. apply keeps_for_each. intros m d.
      apply keeps_bind; [apply keeps_int_div|]. intros q.
      destruct (q >? 0); [|apply keeps_ret].
      apply keeps_bind; [apply keeps_int_div|]. intros q'.
      apply keeps_bind; [apply keeps_int_rem|]. intros r.
      apply keeps_bind; [apply IH|]. intros n.
      apply keeps_bind; [apply keeps_int_add|]. intros s.
      apply keeps_ret.
    + intros min_val. apply keeps_bind; [apply keeps_memo_set|].
      intros _. apply keeps_ret.
Qed.

Lemma CalcNumStampsToFillRequest_keeps (request : Z) (s : StampDispenser) :
  snd (CalcNumStampsToFillRequest request s) = s.
Proof.
  unfold CalcNumStampsToFillRequest.
  destruct (negb _); [reflexivity|].
  destruct (fill_memo _ _ _ _) as [memo|f]; [|reflexivity].
  pose proof (keeps_CalcNumStamps (S (Z.to_nat request)) request
                {| this := s; memoizationVect := memo |}) as H.
  destruct (CalcNumStamps _ _ _) as [res fr]. exact H.
Qed.

End Frame.

(** ** Building the memoisation vector *)

Section FillMemo.

Lemma fill_memo_Ok (fuel : nat) :
  forall i request v,
    0 <= i <= request + 1 -> request < INT_MAX ->
    (Z.to_nat (request + 1 - i) < fuel)%nat ->
    fill_memo fuel i request v =
    Ok (v ++ replicate (Z.to_nat (request + 1 - i)) (-1)).
Proof.
  induction fuel as [|fuel IH]; intros i request v Hi Hr Hf; [lia|].
  cbn [fill_memo].
  destruct (Z.leb_spec i request) as [Hle|Hgt].
  - destruct (Z.ltb_spec i INT_MAX) as [Hlt|Hge]; [|lia].
    rewrite IH by lia.
    replace (Z.to_nat (request + 1 - i))
      with (S (Z.to_nat (request + 1 - (i + 1)))) by lia.
    cbn [replicate]. rewrite <- app_assoc. reflexivity.
  - replace (request + 1 - i) with 0 by lia. simpl.
    now rewrite app_nil_r.
Qed.

(** A request of [INT_MAX] drives the counter of the loop over the edge. *)
Lemma fill_memo_overflow (fuel : nat) :
  forall i v,
    0 <= i <= INT_MAX ->
    (Z.to_nat (INT_MAX - i) < fuel)%nat ->
    fill_memo fuel i INT_MAX v = Abort SignedOverflow.
Proof.
  induction fuel as [|fuel IH]; intros i v Hi Hf; [lia|].
  cbn [fill_memo].
  destruct (Z.leb_spec i INT_MAX) as [Hle|Hgt]; [|lia].
  destruct (Z.ltb_spec i INT_MAX) as [Hlt|Hge]; [|reflexivity].
  apply IH; lia.
Qed.

End FillMemo.

(** ** Properties of the recurrence *)

Section Recurrence.

Variable dens : list Z.

(** A stamp that passes the test [request / d > 0] is positive, fits, and
    leaves a smaller remainder. *)
Lemma usable_stamp (request d : Z) :
  0 <= request -> Z.quot request d > 0 ->
  0 < d <= request /\ 0 <= Z.rem request d < d /\
  Z.quot request d = request / d /\ Z.rem request d = request mod d.
Proof.
  intros Hr Hq.
  assert (Hd : 0 < d).
  { destruct (Z.lt_trichotomy d 0) as [Hn|[->|Hp]]; [| |assumption].
    - pose proof (Z.quot_opp_r request (- d)) as H.
      rewrite Z.opp_involutive in H.
      pose proof (Z.quot_pos request (- d)) as H'. lia.
    - rewrite Zquot.Zquot_0_r in Hq. lia. }
  rewrite Z.quot_div_nonneg in * by lia.
  rewrite Z.rem_mod_nonneg by lia.
  pose proof (Z.mod_pos_bound request d Hd).
  pose proof (Z.div_mod request d).
  repeat split; try lia.
  destruct (Z.le_gt_cases d request); [assumption|].
  rewrite Z.div_small in Hq by lia. lia.
Qed.

Lemma fold_candidate_ext (rec1 rec2 : Z -> Z) (request : Z) :
  0 <= request ->
  (forall r, 0 <= r < request -> rec1 r = rec2 r) ->
  forall ds m,
    fold_left (candidate rec1 request) ds m =
    fold_left (candidate rec2 request) ds m.
Proof.
  intros Hr Hrec. induction ds as [|d ds IH]; intros m; [reflexivity|].
  cbn [fold_left]. rewrite IH. f_equal.
  unfold candidate. destruct (Z.gtb_spec (Z.quot request d) 0) as [Hq|]; [|reflexivity].
  destruct (usable_stamp request d Hr) as (? & ? & _); [lia|].
  rewrite Hrec by lia. reflexivity.
Qed.

Lemma stamps_fuel (f1 : nat) :
  forall f2 request,
    0 <= request ->
    (Z.to_nat request < f1)%nat -> (Z.to_nat request < f2)%nat ->
    stamps dens f1 request = stamps dens f2 request.
Proof.
  induction f1 as [|f1 IH]; intros f2 request Hr H1 H2; [lia|].
  destruct f2 as [|f2]; [lia|]. cbn [stamps].
  destruct (0 =? request); [reflexivity|].
  apply fold_candidate_ext; [assumption|].
  intros r Hlt. apply IH; lia.
Qed.

Lemma numStamps_0 : numStamps dens 0 = 0.
Proof. reflexivity. Qed.

Lemma numStamps_unfold (request : Z) :
  0 < request ->
  numStamps dens request =
  fold_left (candidate (numStamps dens) request) dens INT_MAX.
Proof.
  intros Hr. unfold numStamps at 1. cbn [stamps].
  destruct (Z.eqb_spec 0 request); [lia|].
  apply fold_candidate_ext; [lia|].
  intros r Hlt. unfold numStamps. apply stamps_fuel; lia.
Qed.

(** What the loop leaves in [min_val]: the least of the start value and of
    the candidates of the usable stamps. *)
Lemma fold_candidate_min (rec : Z -> Z) (request : Z) :
  forall ds m,
    let v := fold_left (candidate rec request) ds m in
    v <= m /\
    (forall d, In d ds -> Z.quot request d > 0 ->
               v <= Z.quot request d + rec (Z.rem request d)) /\
    (v = m \/
     exists d, In d ds /\ Z.quot request d > 0 /\
               v = Z.quot request d + rec (Z.rem request d)).
Proof.
  induction ds as [|d ds IH]; intros m; cbn [fold_left].
  - cbv zeta. split; [lia|]. split; [intros d []|]. now left.
  - cbv zeta. specialize (IH (candidate rec request m d)). cbv zeta in IH.
    destruct IH as (Hle & Hall & Hex).
    set (v := fold_left _ ds _) in *.
    unfold candidate in Hle, Hex.
    destruct (Z.gtb_spec (Z.quot request d) 0) as [Hq|Hq].
    + split; [lia|]. split.
      * intros d' [<-|Hin] Hq'; [lia | auto].
      * destruct Hex as [Hv|(d' & Hin & Hq' & Hv)].
        -- destruct (Z.min_spec m (Z.quot request d + rec (Z.rem request d)))
             as [[_ Hm]|[_ Hm]]; rewrite Hm in Hv.
           ++ now left.
           ++ right. exists d. split; [now left|]. split; [lia | assumption].
        -- right. exists d'. split; [now right|]. split; assumption.
    + split; [lia|]. split.
      * intros d' [<-|Hin] Hq'; [lia | auto].
      * destruct Hex as [Hv|(d' & Hin & Hq' & Hv)]; [now left|].
        right. exists d'. split; [now right|]. split; assumption.
Qed.

(** With a stamp of value 1 at hand the count never exceeds the request. *)
Lemma numStamps_bounds :
  In 1 dens -> forall request, 0 <= request -> 0 <= numStamps dens request <= request.
Proof.
  intros H1.
  apply (Zlt_0_ind (fun request => 0 <= numStamps dens request <= request)).
  intros request IH Hr.
  destruct (Z.eq_dec request 0) as [->|Hne]; [rewrite numStamps_0; lia|].
  rewrite numStamps_unfold by lia.
  destruct (fold_candidate_min (numStamps dens) request dens INT_MAX)
    as (Hle & Hall & Hex).
  set (v := fold_left _ dens _) in *. split.
  - destruct Hex as [->|(d & _ & Hq & ->)]; [unfold INT_MAX; lia|].
    destruct (usable_stamp request d) as (? & ? & _); [lia..|].
    specialize (IH (Z.rem request d)). lia.
  - specialize (Hall 1 H1). rewrite Z.quot_1_r, Z.rem_1_r, numStamps_0 in Hall. lia.
Qed.

End Recurrence.

(** ** The memoised code computes the recurrence *)

Lemma CalcNumStamps_S (fuel : nat) (request : Z) :
  CalcNumStamps (S fuel) request =
  (cached <- memo_get request ;;
   if cached >=? 0 then memo_get request
   else if 0 =? request then ret 0
   else
     min_val <-
       (fun fr =>
          for_each (m_denominationVector (this fr))
            (stamp_body (CalcNumStamps fuel) request) INT_MAX fr) ;;
     memo_set request min_val ;;;
     ret min_val).
Proof. reflexivity. Qed.

Lemma bind_Ok {A B} (c : M A) (k : A -> M B) (fr fr' : frame) (a : A) :
  c fr = (Ok a, fr') -> bind c k fr = k a fr'.
Proof. intros H. unfold bind. rewrite H. reflexivity. Qed.

Lemma bind_Abort {A B} (c : M A) (k : A -> M B) (fr fr' : frame) (f : fault) :
  c fr = (Abort f, fr') -> bind c k fr = (Abort f, fr').
Proof. intros H. unfold bind. rewrite H. reflexivity. Qed.

Lemma int_div_Ok (a b : Z) (fr : frame) :
  0 <= a -> b <> 0 -> int_div a b fr = (Ok (Z.quot a b), fr).
Proof.
  intros Ha Hb. unfold int_div.
  destruct (Z.eqb_spec b 0); [contradiction|].
  destruct (Z.eqb_spec a INT_MIN); [unfold INT_MIN in *; lia|]. reflexivity.
Qed.

Lemma int_rem_Ok (a b : Z) (fr : frame) :
  0 <= a -> b <> 0 -> int_rem a b fr = (Ok (Z.rem a b), fr).
Proof.
  intros Ha Hb. unfold int_rem.
  destruct (Z.eqb_spec b 0); [contradiction|].
  destruct (Z.eqb_spec a INT_MIN); [unfold INT_MIN in *; lia|]. reflexivity.
Qed.

Lemma int_add_Ok (a b : Z) (fr : frame) :
  is_int (a + b) -> int_add a b fr = (Ok (a + b), fr).
Proof.
  intros [Hlo Hhi]. unfold int_add, is_intb.
  destruct (Z.leb_spec INT_MIN (a + b)); [|lia].
  destruct (Z.leb_spec (a + b) INT_MAX); [|lia]. reflexivity.
Qed.

Lemma memo_get_Ok (i v : Z) (fr : frame) :
  0 <= i -> memoizationVect fr !! Z.to_nat i = Some v ->
  memo_get i fr = (Ok v, fr).
Proof.
  intros Hi Hv. unfold memo_get.
  destruct (Z.ltb_spec i 0); [lia|]. rewrite Hv. reflexivity.
Qed.

Lemma memo_set_Ok (i v : Z) (fr : frame) :
  0 <= i < Z.of_nat (length (memoizationVect fr)) ->
  memo_set i v fr =
  (Ok tt, {| this := this fr;
             memoizationVect := <[Z.to_nat i := v]> (memoizationVect fr) |}).
Proof.
  intros Hi. unfold memo_set.
  destruct (Z.ltb_spec i 0); [lia|].
  destruct (Z.leb_spec (Z.of_nat (length (memoizationVect fr))) i); [lia|].
  reflexivity.
Qed.

Lemma memo_ok_replicate (dens : list Z) (n : nat) :
  memo_ok dens (replicate n (-1)).
Proof.
  intros i v Hv Hpos. apply lookup_replicate in Hv as [-> _]. lia.
Qed.

Lemma memo_ok_insert (dens memo : list Z) (request : Z) :
  0 <= request ->
  memo_ok dens memo ->
  memo_ok dens (<[Z.to_nat request := numStamps dens request]> memo).
Proof.
  intros Hr Hok i v Hv Hpos.
  destruct (Nat.eq_dec (Z.to_nat request) i) as [<-|Hne].
  - destruct (Nat.lt_ge_cases (Z.to_nat request) (length memo)) as [Hlt|Hge].
    + rewrite list_lookup_insert_eq in Hv by assumption.
      injection Hv as <-. now rewrite Z2Nat.id.
    + rewrite list_insert_ge in Hv by assumption. now apply Hok.
  - rewrite list_lookup_insert_ne in Hv by assumption. now apply Hok.
Qed.

Section Memoised.

Variable s : StampDispenser.
Hypothesis no_zero : ~ In 0 (m_denominationVector s).
Hypothesis has_one : In 1 (m_denominationVector s).

Local Abbreviation dens := (m_denominationVector s).
Local Abbreviation on memo := {| this := s; memoizationVect := memo |}.

Section Loop.

Variables (fuel : nat) (request : Z).
Hypothesis request_pos : 0 < request <= INT_MAX.
Hypothesis IH : forall r memo,
    0 <= r < request -> r < Z.of_nat (length memo) -> memo_ok dens memo ->
    returns s (CalcNumStamps fuel r) memo (numStamps dens r).

Lemma stamp_body_ok (min_val d : Z) (memo : list Z) :
  d <> 0 ->
  request < Z.of_nat (length memo) -> memo_ok dens memo ->
  returns s (stamp_body (CalcNumStamps fuel) request min_val d)
    memo (candidate (numStamps dens) request min_val d).
Proof.
  intros Hd Hlen Hok. unfold returns, stamp_body, candidate.
  rewrite (bind_Ok _ _ _ _ _ (int_div_Ok request d (on memo) ltac:(lia) Hd)).
  destruct (Z.gtb_spec (Z.quot request d) 0) as [Hq|Hq].
  - destruct (usable_stamp request d) as (Hdr & Hrem & _); [lia..|].
    destruct (IH (Z.rem request d) memo) as (memo1 & Hrun & Hlen1 & Hok1);
      [lia | lia | assumption |].
    pose proof (numStamps_bounds dens has_one (Z.rem request d)) as Hb.
    pose proof (Z.quot_rem' request d) as Hqr.
    exists memo1. split; [|split; assumption].
    rewrite (bind_Ok _ _ _ _ _ (int_div_Ok request d (on memo) ltac:(lia) Hd)).
    rewrite (bind_Ok _ _ _ _ _ (int_rem_Ok request d (on memo) ltac:(lia) Hd)).
    rewrite (bind_Ok _ _ _ _ _ Hrun).
    erewrite bind_Ok; [reflexivity|].
    apply int_add_Ok. unfold is_int, INT_MIN, INT_MAX in *. nia.
  - exists memo. split; [reflexivity | split; [reflexivity | assumption]].
Qed.

Lemma for_each_ok :
  forall ds min_val memo,
    ~ In 0 ds ->
    request < Z.of_nat (length memo) -> memo_ok dens memo ->
    returns s (for_each ds (stamp_body (CalcNumStamps fuel) request) min_val)
      memo (fold_left (candidate (numStamps dens) request) ds min_val).
Proof.
  induction ds as [|d ds IHds]; intros min_val memo Hnz Hlen Hok.
  - exists memo. cbn. auto.
  - assert (Hd : d <> 0) by (intros ->; apply Hnz; now left).
    assert (Hnz' : ~ In 0 ds) by (intros H; apply Hnz; now right).
    destruct (stamp_body_ok min_val d memo Hd Hlen Hok)
      as (memo1 & Hrun1 & Hlen1 & Hok1).
    destruct (IHds (candidate (numStamps dens) request min_val d) memo1 Hnz')
      as (memo2 & Hrun2 & Hlen2 & Hok2); [lia | assumption |].
    exists memo2. split; [|split; [lia | assumption]].
    cbn [for_each fold_left].
    rewrite (bind_Ok _ _ _ _ _ Hrun1). exact Hrun2.
Qed.

End Loop.

Lemma CalcNumStamps_ok (fuel : nat) :
  forall request memo,
    0 <= request <= INT_MAX ->
    (Z.to_nat request < fuel)%nat ->
    request < Z.of_nat (length memo) -> memo_ok dens memo ->
    returns s (CalcNumStamps fuel request) memo (numStamps dens request).
Proof.
  induction fuel as [|fuel IH]; intros request memo Hr Hf Hlen Hok; [lia|].
  rewrite CalcNumStamps_S.
  destruct (lookup_lt_is_Some_2 memo (Z.to_nat request)) as [cached Hc]; [lia|].
  unfold returns.
  erewrite bind_Ok; [|apply memo_get_Ok; [lia | exact Hc]].
  destruct (Z.geb_spec cached 0) as [Hpos|Hneg].
  - exists memo. split; [|auto].
    rewrite (memo_get_Ok request cached) by (try exact Hc; lia).
    rewrite (Hok _ _ Hc) by lia. rewrite Z2Nat.id by lia. reflexivity.
  - destruct (Z.eqb_spec 0 request) as [<-|Hne].
    + exists memo. split; [reflexivity | auto].
    + destruct (for_each_ok fuel request) with (ds := dens) (min_val := INT_MAX)
        (memo := memo) as (memo1 & Hrun & Hlen1 & Hok1);
        [ lia
        | intros r m Hlt Hl Hm; apply IH; [lia | lia | assumption..]
        | assumption | assumption | assumption |].
      rewrite <- numStamps_unfold in Hrun by lia.
      exists (<[Z.to_nat request := numStamps dens request]> memo1).
      split; [|split].
      * erewrite bind_Ok; [|exact Hrun].
        erewrite bind_Ok; [reflexivity|].
        apply memo_set_Ok. cbn. lia.
      * rewrite length_insert. assumption.
      * apply memo_ok_insert; [lia | assumption].
Qed.

(** The public query returns the count and hands the object back. *)
Lemma CalcNumStampsToFillRequest_ok (request : Z) :
  0 <= request < INT_MAX ->
  CalcNumStampsToFillRequest request s = (Ok (numStamps dens request), s).
Proof.
  intros Hr. unfold CalcNumStampsToFillRequest.
  destruct (Z.geb_spec request 0) as [_|]; [|lia]. cbn [negb].
  rewrite fill_memo_Ok by lia. cbn [app].
  destruct (CalcNumStamps_ok (S (Z.to_nat request)) request
              (replicate (Z.to_nat (request + 1 - 0)) (-1)))
    as (memo' & Hrun & _ & _).
  - lia.
  - lia.
  - rewrite length_replicate. lia.
  - apply memo_ok_replicate.
  - rewrite Hrun. reflexivity.
Qed.

End Memoised.

(** ** A stamp of value zero *)

Section ZeroStamp.

Variable s : StampDispenser.
Hypothesis has_zero : In 0 (m_denominationVector s).

Local Abbreviation on0 memo := {| this := s; memoizationVect := memo |}.

Section ZeroLoop.

Variables (fuel : nat) (request : Z) (memo : list Z).
Hypothesis request_pos : 0 < request <= INT_MAX.
Hypothesis memo_len : request < Z.of_nat (length memo).
Hypothesis memo_fresh : all_sentinel memo.
Hypothesis IH : forall r,
    0 < r < request ->
    CalcNumStamps fuel r (on0 memo) = (Abort DivideByZero, on0 memo).
Hypothesis fuel_pos : (0 < fuel)%nat.

Lemma CalcNumStamps_zero_request :
  CalcNumStamps fuel 0 (on0 memo) = (Ok 0, on0 memo).
Proof.
  destruct fuel as [|fuel']; [lia|]. rewrite CalcNumStamps_S.
  destruct (lookup_lt_is_Some_2 memo 0%nat) as [v Hv]; [lia|].
  rewrite (bind_Ok _ _ _ _ _ (memo_get_Ok 0 v (on0 memo) ltac:(lia) Hv)).
  rewrite (memo_fresh _ _ Hv). reflexivity.
Qed.

Lemma stamp_body_zero (min_val d : Z) :
  d <> 0 ->
  stamp_body (CalcNumStamps fuel) request min_val d (on0 memo)
    = (Abort DivideByZero, on0 memo) \/
  exists min_val',
    stamp_body (CalcNumStamps fuel) request min_val d (on0 memo)
    = (Ok min_val', on0 memo).
Proof.
  intros Hd. unfold stamp_body.
  rewrite (bind_Ok _ _ _ _ _ (int_div_Ok request d (on0 memo) ltac:(lia) Hd)).
  destruct (Z.gtb_spec (Z.quot request d) 0) as [Hq|Hq].
  2:{ right. eexists. reflexivity. }
  destruct (usable_stamp request d) as (Hdr & Hrem & _); [lia..|].
  rewrite (bind_Ok _ _ _ _ _ (int_div_Ok request d (on0 memo) ltac:(lia) Hd)).
  rewrite (bind_Ok _ _ _ _ _ (int_rem_Ok request d (on0 memo) ltac:(lia) Hd)).
  destruct (Z.eq_dec (Z.rem request d) 0) as [E|E].
  - right. rewrite E.
    rewrite (bind_Ok _ _ _ _ _ CalcNumStamps_zero_request).
    pose proof (Z.quot_rem' request d) as Hqr.
    erewrite bind_Ok; [eexists; reflexivity|].
    apply int_add_Ok. unfold is_int, INT_MIN, INT_MAX in *. nia.
  - left. erewrite bind_Abort; [reflexivity|]. apply IH. lia.
Qed.

Lemma for_each_zero :
  forall ds min_val,
    In 0 ds ->
    for_each ds (stamp_body (CalcNumStamps fuel) request) min_val (on0 memo)
    = (Abort DivideByZero, on0 memo).
Proof.
  induction ds as [|d ds IHds]; intros min_val Hin; [destruct Hin|].
  cbn [for_each].
  destruct (Z.eq_dec d 0) as [->|Hd].
  - erewrite bind_Abort; [reflexivity|].
    unfold stamp_body. erewrite bind_Abort; reflexivity.
  - destruct (stamp_body_zero min_val d Hd) as [Hrun|[m' Hrun]].
    + erewrite bind_Abort; [reflexivity | exact Hrun].
    + rewrite (bind_Ok _ _ _ _ _ Hrun). apply IHds.
      destruct Hin as [->|Hin]; [contradiction | assumption].
Qed.

End ZeroLoop.

Lemma CalcNumStamps_zero_stamp (fuel : nat) :
  forall request memo,
    0 < request <= INT_MAX ->
    (Z.to_nat request < fuel)%nat ->
    request < Z.of_nat (length memo) -> all_sentinel memo ->
    CalcNumStamps fuel request (on0 memo) = (Abort DivideByZero, on0 memo).
Proof.
  induction fuel as [|fuel IH]; intros request memo Hr Hf Hlen Hfresh; [lia|].
  rewrite CalcNumStamps_S.
  destruct (lookup_lt_is_Some_2 memo (Z.to_nat request)) as [v Hv]; [lia|].
  rewrite (bind_Ok _ _ _ _ _ (memo_get_Ok request v (on0 memo) ltac:(lia) Hv)).
  rewrite (Hfresh _ _ Hv). cbn [Z.geb Z.compare].
  destruct (Z.eqb_spec 0 request) as [|_]; [lia|].
  erewrite bind_Abort; [reflexivity|].
  cbn [this]. apply for_each_zero; try assumption.
  - intros r Hlt. apply IH; [lia | lia | lia | assumption].
  - lia.
Qed.

Lemma all_sentinel_replicate (n : nat) : all_sentinel (replicate n (-1)).
Proof. intros i v Hv. now apply lookup_replicate in Hv as [-> _]. Qed.

Lemma CalcNumStampsToFillRequest_zero_stamp (request : Z) :
  0 < request < INT_MAX ->
  CalcNumStampsToFillRequest request s = (Abort DivideByZero, s).
Proof.
  intros Hr. unfold CalcNumStampsToFillRequest.
  destruct (Z.geb_spec request 0) as [_|]; [|lia]. cbn [negb].
  rewrite fill_memo_Ok by lia. cbn [app].
  rewrite CalcNumStamps_zero_stamp.
  - reflexivity.
  - lia.
  - lia.
  - rewrite length_replicate. lia.
  - apply all_sentinel_replicate.
Qed.

End ZeroStamp.

(** ** The fuel is enough *)

Section Fuel.

Lemma fuelled_ret {A} (a : A) : fuelled (ret a).
Proof. intros fr; discriminate. Qed.

Lemma fuelled_bind {A B} (c : M A) (k : A -> M B) :
  fuelled c ->
  (forall a fr fr', c fr = (Ok a, fr') -> fst (k a fr') <> Abort OutOfFuel) ->
  fuelled (bind c k).
Proof.
  intros Hc Hk fr. unfold bind. specialize (Hc fr).
  destruct (c fr) as [[a|f] fr'] eqn:E; cbn [fst] in *.
  - eapply Hk; eassumption.
  - intros [= ->]. now apply Hc.
Qed.

Lemma fuelled_int_div (a b : Z) : fuelled (int_div a b).
Proof.
  intros fr. unfold int_div.
  destruct (b =? 0); [discriminate|]. destruct (_ && _); discriminate.
Qed.

Lemma fuelled_int_rem (a b : Z) : fuelled (int_rem a b).
Proof.
  intros fr. unfold int_rem.
  destruct (b =? 0); [discriminate|]. destruct (_ && _); discriminate.
Qed.

Lemma fuelled_int_add (a b : Z) : fuelled (int_add a b).
Proof. intros fr. unfold int_add. destruct (is_intb _); discriminate. Qed.

Lemma fuelled_memo_get (i : Z) : fuelled (memo_get i).
Proof.
  intros fr. unfold memo_get. destruct (i <? 0); [discriminate|].
  destruct (_ !! _); discriminate.
Qed.

Lemma fuelled_memo_set (i v : Z) : fuelled (memo_set i v).
Proof. intros fr. unfold memo_set. destruct (_ || _); discriminate. Qed.

Lemma int_div_inv (a b q : Z) (fr fr' : frame) :
  int_div a b fr = (Ok q, fr') -> q = Z.quot a b.
Proof.
  unfold int_div. destruct (b =? 0); [discriminate|].
  destruct (_ && _); [discriminate|]. now intros [= <- _].
Qed.

Lemma int_rem_inv (a b r : Z) (fr fr' : frame) :
  int_rem a b fr = (Ok r, fr') -> r = Z.rem a b.
Proof.
  unfold int_rem. destruct (b =? 0); [discriminate|].
  destruct (_ && _); [discriminate|]. now intros [= <- _].
Qed.

Lemma fuelled_for_each (it : list Z) (body : Z -> Z -> M Z) :
  (forall m d, fuelled (body m d)) ->
  forall min_val, fuelled (for_each it body min_val).
Proof.
  intros Hb. induction it as [|d rest IH]; intros min_val; cbn [for_each].
  - apply fuelled_ret.
  - apply fuelled_bind; [apply Hb | intros a fr fr' _; apply IH].
Qed.

(** Whatever the stamps and whatever the vector, a call with more fuel than
    its request is never cut short: each nested call is on a remainder
    smaller than the request it came from. *)
Lemma fuelled_CalcNumStamps (fuel : nat) :
  forall request,
    0 <= request -> (Z.to_nat request < fuel)%nat ->
    fuelled (CalcNumStamps fuel request).
Proof.
  induction fuel as [|fuel IH]; intros request Hr Hf; [lia|].
  rewrite CalcNumStamps_S.
  apply fuelled_bind; [apply fuelled_memo_get|]. intros cached fr0 fr1 _.
  destruct (cached >=? 0); [apply fuelled_memo_get|].
  destruct (0 =? request); [apply fuelled_ret|].
  apply fuelled_bind.
  - intros fr. apply fuelled_for_each. intros m d. unfold stamp_body.
    apply fuelled_bind; [apply fuelled_int_div|]. intros q fr2 fr3 Hq.
    apply int_div_inv in Hq as ->.
    destruct (Z.gtb_spec (Z.quot request d) 0) as [Hq|Hq]; [|apply fuelled_ret].
    destruct (usable_stamp request d Hr ltac:(lia)) as (Hd & Hrem & _).
    apply fuelled_bind; [apply fuelled_int_div|]. intros q fr4 fr5 _.
    apply fuelled_bind; [apply fuelled_int_rem|]. intros r fr6 fr7 Hrm.
    apply int_rem_inv in Hrm as ->.
    apply fuelled_bind; [apply IH; lia|]. intros n fr8 fr9 _.
    apply fuelled_bind; [apply fuelled_int_add|]. intros t fr10 fr11 _.
    apply fuelled_ret.
  - intros min_val fr2 fr3 _.
    apply fuelled_bind; [apply fuelled_memo_set|]. intros _ fr4 fr5 _.
    apply fuelled_ret.
Qed.

Lemma fill_memo_fuelled (fuel : nat) :
  forall i request v,
    0 <= i -> (Z.to_nat (request + 1 - i) < fuel)%nat ->
    fill_memo fuel i request v <> Abort OutOfFuel.
Proof.
  induction fuel as [|fuel IH]; intros i request v Hi Hf; [lia|].
  cbn [fill_memo].
  destruct (Z.leb_spec i request); [|discriminate].
  destruct (Z.ltb_spec i INT_MAX); [|discriminate].
  apply IH; lia.
Qed.

(** The fuel [CalcNumStampsToFillRequest] hands over is an artefact of the
    embedding that no run ever notices. *)
Lemma CalcNumStampsToFillRequest_fuelled (request : Z) (s : StampDispenser) :
  fst (CalcNumStampsToFillRequest request s) <> Abort OutOfFuel.
Proof.
  unfold CalcNumStampsToFillRequest.
  destruct (Z.geb_spec request 0) as [Hr|]; [|discriminate]. cbn [negb].
  pose proof (fill_memo_fuelled (Z.to_nat request + 2) 0 request []) as Hfill.
  destruct (fill_memo _ _ _ _) as [memo|f].
  - pose proof (fuelled_CalcNumStamps (S (Z.to_nat request)) request
                  ltac:(lia) ltac:(lia)
                  {| this := s; memoizationVect := memo |}) as H.
    destruct (CalcNumStamps _ _ _) as [res fr]. exact H.
  - cbn [fst]. intros [= ->]. apply Hfill; [lia | lia | reflexivity].
Qed.

End Fuel.

(** ** Construction, seen from the query *)

Lemma new_StampDispenser_Ok (l : list Z) (s : StampDispenser) :
  new_StampDispenser l = Ok s ->
  m_denominationVector s = l /\ valid_denominations l.
Proof.
  unfold new_StampDispenser.
  destruct (ValidateInput l) as [[|]|f] eqn:E; [|now destruct (ValidateInput_never_false l)|discriminate].
  intros [= <-]. cbn [m_denominationVector]. rewrite push_all_app. split; [reflexivity|].
  unfold ValidateInput in E.
  destruct l as [|x l]; [discriminate|].
  replace (negb (0 <? Z.of_nat (length (x :: l)))) with false in E
    by (symmetry; apply negb_false_iff, Z.ltb_lt; simpl; lia).
  destruct (ValidateInput_loop (x :: l) false INT_MAX) as [b|f] eqn:E'; [|discriminate].
  apply ValidateInput_loop_Ok in E' as (Hd & Hn & ->).
  rewrite orb_false_l in E.
  destruct (existsb (Z.eqb 1) (x :: l)) eqn:E1; [|discriminate].
  apply existsb_eqb_In in E1.
  apply non_increasing_cons in Hd as [_ Hd].
  repeat split; [discriminate | assumption..].
Qed.

Lemma valid_nonzero_positive (l : list Z) :
  valid_denominations l -> ~ In 0 l -> forall d, In d l -> 0 < d.
Proof.
  intros (_ & _ & Hn & _) H0 d Hd.
  unfold non_negative in Hn. rewrite Forall_forall in Hn.
  specialize (Hn d). rewrite list_elem_of_In in Hn. specialize (Hn Hd).
  destruct (Z.eq_dec d 0) as [->|]; [contradiction | lia].
Qed.

(** ** The claims *)

(** C2. For a sequence of [int]s, construction succeeds exactly when the
    sequence is non-empty, non-increasing, non-negative and contains 1; the
    object then holds the sequence unchanged.  Otherwise construction stops
    with one of the four [InvalidDenominationSet] faults, the fault names a
    check that does fail on the sequence, and no object is produced. *)
Theorem new_StampDispenser_iff_valid (l : list Z) :
  Forall is_int l ->
  ((exists s, new_StampDispenser l = Ok s) <-> valid_denominations l) /\
  (forall s, new_StampDispenser l = Ok s -> m_denominationVector s = l) /\
  (forall f, new_StampDispenser l = Abort f ->
             InvalidDenominationSet f /\ check_failed f l) /\
  (~ valid_denominations l -> exists f, new_StampDispenser l = Abort f).
Proof.
  intros Hl.
  assert (Hiff : (exists s, new_StampDispenser l = Ok s) <-> valid_denominations l).
  { split.
    - intros [s Hs]. now apply new_StampDispenser_Ok in Hs.
    - intros Hv. apply (ValidateInput_Ok l Hl) in Hv.
      unfold new_StampDispenser. rewrite Hv. eexists; reflexivity. }
  split; [exact Hiff|]. split; [|split].
  - intros s Hs. now apply new_StampDispenser_Ok in Hs.
  - intros f. unfold new_StampDispenser.
    destruct (ValidateInput l) as [[|]|f'] eqn:E; try discriminate.
    intros [= <-]. now apply ValidateInput_Abort.
  - intros Hnv. destruct (new_StampDispenser l) as [s|f] eqn:E.
    + exfalso. apply Hnv, Hiff. now exists s.
    + now exists f.
Qed.

Lemma new_StampDispenser_iff_valid_witness :
  Forall is_int [4; 3; 2; 1; -1] /\
  (forall f, new_StampDispenser [4; 3; 2; 1; -1] = Abort f ->
             InvalidDenominationSet f /\ check_failed f [4; 3; 2; 1; -1]).
Proof.
  assert (H : Forall is_int [4; 3; 2; 1; -1])
    by (repeat constructor; unfold INT_MIN, INT_MAX; lia).
  split; [exact H|].
  apply (new_StampDispenser_iff_valid [4; 3; 2; 1; -1] H).
Defined.

(** C6. On every dispenser built from a valid denomination set a request of
    0 needs 0 stamps. *)
Theorem minCount_of_zero (l : list Z) (s : StampDispenser) :
  new_StampDispenser l = Ok s ->
  CalcNumStampsToFillRequest 0 s = (Ok 0, s).
Proof. intros _. reflexivity. Qed.

Lemma minCount_of_zero_witness :
  new_StampDispenser stampDenominations2
    = Ok {| m_denominationVector := stampDenominations2 |} /\
  CalcNumStampsToFillRequest 0 {| m_denominationVector := stampDenominations2 |}
    = (Ok 0, {| m_denominationVector := stampDenominations2 |}).
Proof.
  split; [reflexivity|].
  apply (minCount_of_zero stampDenominations2). reflexivity.
Defined.

(** C7. On every dispenser built from a valid denomination set a negative
    request stops at the first assertion with [InvalidRequest]; the object is
    handed back as it was. *)
Theorem negative_request_rejected (l : list Z) (s : StampDispenser) (request : Z) :
  new_StampDispenser l = Ok s ->
  request < 0 ->
  exists f, InvalidRequest f /\
            CalcNumStampsToFillRequest request s = (Abort f, s).
Proof.
  intros _ Hneg. exists AssertRequest. split; [reflexivity|].
  unfold CalcNumStampsToFillRequest.
  destruct (Z.geb_spec request 0); [lia | reflexivity].
Qed.

Lemma negative_request_rejected_witness :
  new_StampDispenser stampDenominations2
    = Ok {| m_denominationVector := stampDenominations2 |} /\
  -1 < 0 /\
  exists f, InvalidRequest f /\
            CalcNumStampsToFillRequest (-1)
              {| m_denominationVector := stampDenominations2 |}
            = (Abort f, {| m_denominationVector := stampDenominations2 |}).
Proof.
  split; [reflexivity|]. split; [lia|].
  apply (negative_request_rejected stampDenominations2); [reflexivity | lia].
Defined.

(** C9. However many times the same request is put to the same object, every
    call ends the same way as the first, and the object, with its
    denomination vector, comes back unchanged; the memoisation vector of a
    call is gone when the call is over. *)
Theorem repeated_queries_agree (n : nat) (request : Z) (s : StampDispenser) :
  query_n n request s = (replicate n (minCount s request), s).
Proof.
  induction n as [|n IH]; [reflexivity|].
  cbn [query_n replicate]. unfold minCount in *.
  pose proof (CalcNumStampsToFillRequest_keeps request s) as Hk.
  destruct (CalcNumStampsToFillRequest request s) as [res s'] eqn:E.
  cbn [snd] in Hk. subst s'. rewrite IH. reflexivity.
Qed.

(** C8. The first dispenser of [main] fills a request of 18 with 3 stamps. *)
Theorem main_request_18 :
  exists s, new_StampDispenser stampDenominations = Ok s /\
            CalcNumStampsToFillRequest 18 s = (Ok 3, s).
Proof. eexists. split; [reflexivity | vm_compute; reflexivity]. Qed.

(** C4. The second dispenser of [main], with stamps 6, 4 and 1, fills a
    request of 8 with 2 stamps: the branch through 6 costs 1 + minCount 2 = 3,
    the branch through 4 costs 2 + minCount 0 = 2. *)
Theorem main_request_8 :
  exists s, new_StampDispenser stampDenominations2 = Ok s /\
            CalcNumStampsToFillRequest 8 s = (Ok 2, s) /\
            minCount s (8 mod 6) = Ok 2 /\ 8 / 6 + 2 = 3 /\
            minCount s (8 mod 4) = Ok 0 /\ 8 / 4 + 0 = 2.
Proof. eexists. split; [reflexivity | vm_compute; auto]. Qed.

(** C3. The stamps 4, 3 and 1 form a valid denomination set, and on the
    request 10 the code answers 4 (two 4s and two 1s) where the canonical
    recursion answers 3; three stamps, 4 + 3 + 3, do fill the request. *)
Theorem not_the_canonical_minimum :
  exists (l : list Z) (s : StampDispenser) (request a b : Z) (stamps : list Z),
    valid_denominations l /\ new_StampDispenser l = Ok s /\ 0 <= request /\
    minCount s request = Ok a /\
    canonicalMinCount l (S (Z.to_nat request)) request = Some b /\
    a <> b /\
    fills l stamps request /\ Z.of_nat (length stamps) < a.
Proof.
  exists [4; 3; 1], {| m_denominationVector := [4; 3; 1] |}, 10, 4, 3, [4; 3; 3].
  assert (Hnew : new_StampDispenser [4; 3; 1]
                 = Ok {| m_denominationVector := [4; 3; 1] |}) by reflexivity.
  split; [exact (proj2 (new_StampDispenser_Ok _ _ Hnew))|].
  split; [exact Hnew|]. split; [lia|].
  split; [vm_compute; reflexivity|]. split; [vm_compute; reflexivity|].
  split; [lia|]. split; [|simpl; lia].
  split; [|reflexivity].
  repeat (apply List.Forall_cons; [simpl; lia|]). apply List.Forall_nil.
Qed.

(** X14. What holds when no stamp is worth 0: the recurrence of C1.  The query
    returns a count, every stamp [d <= request] has a branch whose remainder
    the query resolves, the count is at most the cost of each branch and is
    the cost of one of them. *)
Theorem minCount_recurrence_nonzero (l : list Z) (s : StampDispenser) (request : Z) :
  new_StampDispenser l = Ok s -> ~ In 0 l ->
  0 < request < INT_MAX ->
  exists v,
    minCount s request = Ok v /\
    (forall d, In d l -> d <= request ->
               exists n, minCount s (request mod d) = Ok n /\
                         v <= request / d + n) /\
    (exists d n, In d l /\ d <= request /\
                 minCount s (request mod d) = Ok n /\ v = request / d + n).
Proof.
  intros Hnew H0 Hr.
  destruct (new_StampDispenser_Ok l s Hnew) as [Hl Hv].
  pose proof (valid_nonzero_positive l Hv H0) as Hpos.
  assert (H1 : In 1 l) by apply Hv. rewrite <- Hl in H0, H1.
  assert (Hq : forall r, 0 <= r < INT_MAX -> minCount s r = Ok (numStamps l r)).
  { intros r Hrr. unfold minCount.
    rewrite (CalcNumStampsToFillRequest_ok s H0 H1 r Hrr), Hl. reflexivity. }
  exists (numStamps l request). split; [apply Hq; lia|].
  destruct (fold_candidate_min (numStamps l) request l INT_MAX) as (Hle & Hall & Hex).
  rewrite <- numStamps_unfold in Hle, Hall, Hex by lia.
  assert (Hrem : forall d, In d l -> d <= request ->
                           Z.quot request d > 0 /\
                           Z.quot request d = request / d /\
                           Z.rem request d = request mod d /\
                           0 <= request mod d < INT_MAX).
  { intros d Hd Hdr. specialize (Hpos d Hd).
    rewrite Z.quot_div_nonneg, Z.rem_mod_nonneg by lia.
    pose proof (Z.mod_pos_bound request d Hpos).
    assert (1 <= request / d) by (apply Z.div_le_lower_bound; lia).
    repeat split; lia. }
  split.
  - intros d Hd Hdr. destruct (Hrem d Hd Hdr) as (Hqd & Eq & Er & Hb).
    exists (numStamps l (request mod d)). split; [apply Hq; assumption|].
    rewrite <- Eq, <- Er. apply Hall; assumption.
  - rewrite Hl in H1.
    pose proof (numStamps_bounds l H1 request ltac:(lia)) as Hb.
    destruct Hex as [Hmax|(d & Hd & Hqd & Hval)]; [lia|].
    destruct (usable_stamp request d ltac:(lia) Hqd) as (Hdr & _ & Eq & Er).
    exists d, (numStamps l (request mod d)).
    destruct (Hrem d Hd ltac:(lia)) as (_ & _ & _ & Hbm).
    repeat split; [assumption | lia | apply Hq; assumption |].
    rewrite <- Eq, <- Er. exact Hval.
Qed.

Lemma minCount_recurrence_nonzero_witness :
  exists v,
    minCount {| m_denominationVector := stampDenominations2 |} 8 = Ok v /\
    (forall d, In d stampDenominations2 -> d <= 8 ->
               exists n,
                 minCount {| m_denominationVector := stampDenominations2 |} (8 mod d)
                   = Ok n /\
                 v <= 8 / d + n) /\
    (exists d n, In d stampDenominations2 /\ d <= 8 /\
                 minCount {| m_denominationVector := stampDenominations2 |} (8 mod d)
                   = Ok n /\
                 v = 8 / d + n).
Proof.
  apply (minCount_recurrence_nonzero stampDenominations2);
    [reflexivity | simpl; lia | unfold INT_MAX; lia].
Defined.

(** X15. What holds when no stamp is worth 0: the query comes back with a count
    between 0 and the request, without a fault of any kind, and so without
    a division by zero or an access outside the memoisation vector. *)
Theorem minCount_defined_nonzero (l : list Z) (s : StampDispenser) (request : Z) :
  new_StampDispenser l = Ok s -> ~ In 0 l ->
  0 <= request < INT_MAX ->
  exists v, CalcNumStampsToFillRequest request s = (Ok v, s) /\
            0 <= v <= request.
Proof.
  intros Hnew H0 Hr.
  destruct (new_StampDispenser_Ok l s Hnew) as [Hl Hv].
  assert (H1 : In 1 l) by apply Hv. rewrite <- Hl in H0, H1.
  exists (numStamps (m_denominationVector s) request). split.
  - apply CalcNumStampsToFillRequest_ok; assumption.
  - apply numStamps_bounds; [assumption | lia].
Qed.

Lemma minCount_defined_nonzero_witness :
  exists v,
    CalcNumStampsToFillRequest 18 {| m_denominationVector := stampDenominations |}
      = (Ok v, {| m_denominationVector := stampDenominations |}) /\
    0 <= v <= 18.
Proof.
  apply (minCount_defined_nonzero stampDenominations);
    [reflexivity | simpl; lia | unfold INT_MAX; lia].
Defined.

(** X16. A request of [INT_MAX] never reaches the recursion: the counter of the
    loop that fills the memoisation vector overflows. *)
Theorem request_INT_MAX_overflows (s : StampDispenser) :
  CalcNumStampsToFillRequest INT_MAX s = (Abort SignedOverflow, s).
Proof.
  unfold CalcNumStampsToFillRequest.
  replace (negb (INT_MAX >=? 0)) with false by reflexivity.
  rewrite fill_memo_overflow; [reflexivity | unfold INT_MAX; lia | lia].
Qed.

(** X17. Whatever the accepted stamps, no query on an [int] request that passes
    the first assertion reads or writes the memoisation vector outside the
    indices 0 to [request]. *)
Theorem memo_access_in_range (l : list Z) (s : StampDispenser) (request : Z) :
  new_StampDispenser l = Ok s ->
  0 <= request <= INT_MAX ->
  minCount s request <> Abort IndexOutOfRange.
Proof.
  intros Hnew Hr. unfold minCount.
  destruct (new_StampDispenser_Ok l s Hnew) as [Hl Hv].
  destruct (Z.eq_dec request INT_MAX) as [->|Hne].
  { unfold CalcNumStampsToFillRequest.
    replace (negb (INT_MAX >=? 0)) with false by reflexivity.
    rewrite fill_memo_overflow; [discriminate | unfold INT_MAX; lia | lia]. }
  destruct (Z.eq_dec request 0) as [->|Hpos]; [discriminate|].
  destruct (in_dec Z.eq_dec 0 l) as [H0|H0]; rewrite <- Hl in H0.
  - rewrite (CalcNumStampsToFillRequest_zero_stamp s H0) by lia. discriminate.
  - assert (H1 : In 1 (m_denominationVector s)) by (rewrite Hl; apply Hv).
    rewrite (CalcNumStampsToFillRequest_ok s H0 H1) by lia. discriminate.
Qed.

Lemma memo_access_in_range_witness :
  0 <= 1 <= INT_MAX /\
  minCount {| m_denominationVector := [1; 0] |} 1 <> Abort IndexOutOfRange.
Proof.
  assert (H : 0 <= 1 <= INT_MAX) by (unfold INT_MAX; lia).
  split; [exact H|].
  apply (memo_access_in_range [1; 0]); [reflexivity | exact H].
Defined.

(** C1, at the input where the code departs from it.  The sequence 1, 0 passes
    validation, and on the request 1 the query has no value to compare with
    the minimum of the branches: after the branch through the stamp 1 the
    loop divides by the stamp 0. *)
Theorem minCount_zero_stamp_no_value :
  exists s, new_StampDispenser [1; 0] = Ok s /\
            valid_denominations [1; 0] /\
            minCount s 1 = Abort DivideByZero /\
            forall v, minCount s 1 <> Ok v.
Proof.
  exists {| m_denominationVector := [1; 0] |}.
  assert (Hnew : new_StampDispenser [1; 0]
                 = Ok {| m_denominationVector := [1; 0] |}) by reflexivity.
  split; [exact Hnew|].
  split; [exact (proj2 (new_StampDispenser_Ok _ _ Hnew))|].
  split; [vm_compute; reflexivity|].
  intros v. vm_compute. discriminate.
Qed.

(** C5, at the input where the code departs from it.  On the dispenser built
    from 1, 0 the recursion started on the request 1 with a fresh vector
    returns no value, whatever fuel it is given. *)
Theorem CalcNumStamps_zero_stamp_undefined :
  forall (fuel : nat) (v : Z) (fr : frame),
    CalcNumStamps fuel 1
      {| this := {| m_denominationVector := [1; 0] |};
         memoizationVect := [-1; -1] |} <> (Ok v, fr).
Proof.
  intros [|[|fuel]] v fr.
  - vm_compute. discriminate.
  - vm_compute. discriminate.
  - rewrite (CalcNumStamps_zero_stamp {| m_denominationVector := [1; 0] |}).
    + discriminate.
    + simpl; auto.
    + unfold INT_MAX; lia.
    + lia.
    + simpl; lia.
    + exact (all_sentinel_replicate 2).
Qed.

(** C10, where the code departs from it.  Validation lets a stamp of value 0
    through, and then every request from 1 up to [INT_MAX - 1] ends in a
    division by that stamp. *)
Theorem zero_stamp_divides_by_zero (l : list Z) (s : StampDispenser) (request : Z) :
  new_StampDispenser l = Ok s -> In 0 l ->
  0 < request < INT_MAX ->
  CalcNumStampsToFillRequest request s = (Abort DivideByZero, s).
Proof.
  intros Hnew H0 Hr.
  destruct (new_StampDispenser_Ok l s Hnew) as [Hl _]. rewrite <- Hl in H0.
  now apply CalcNumStampsToFillRequest_zero_stamp.
Qed.

Lemma zero_stamp_divides_by_zero_witness :
  new_StampDispenser [1; 0] = Ok {| m_denominationVector := [1; 0] |} /\
  In 0 [1; 0] /\ 0 < 1 < INT_MAX /\
  CalcNumStampsToFillRequest 1 {| m_denominationVector := [1; 0] |}
    = (Abort DivideByZero, {| m_denominationVector := [1; 0] |}).
Proof.
  split; [reflexivity|]. split; [simpl; auto|].
  split; [unfold INT_MAX; lia|].
  apply (zero_stamp_divides_by_zero [1; 0]);
    [reflexivity | simpl; auto | unfold INT_MAX; lia].
Defined.

(** * Further properties of the code *)

(** ** The vector is never resized *)

Section Size.

Lemma size_ret {A} (a : A) : keeps_size (ret a).
Proof. intros fr; reflexivity. Qed.

Lemma size_abort {A} (f : fault) : keeps_size (@abort A f).
Proof. intros fr; reflexivity. Qed.

Lemma size_bind {A B} (c : M A) (k : A -> M B) :
  keeps_size c -> (forall a, keeps_size (k a)) -> keeps_size (bind c k).
Proof.
  intros Hc Hk fr. unfold bind. specialize (Hc fr).
  destruct (c fr) as [[a|f] fr']; cbn [snd] in *.
  - rewrite Hk. assumption.
  - assumption.
Qed.

Lemma size_int_div (a b : Z) : keeps_size (int_div a b).
Proof.
  unfold int_div. destruct (b =? 0); [apply size_abort|].
  destruct (_ && _); [apply size_abort | apply size_ret].
Qed.

Lemma size_int_rem (a b : Z) : keeps_size (int_rem a b).
Proof.
  unfold int_rem. destruct (b =? 0); [apply size_abort|].
  destruct (_ && _); [apply size_abort | apply size_ret].
Qed.

Lemma size_int_add (a b : Z) : keeps_size (int_add a b).
Proof.
  unfold int_add. destruct (is_intb _); [apply size_ret | apply size_abort].
Qed.

Lemma size_memo_get (i : Z) : keeps_size (memo_get i).
Proof.
  intros fr. unfold memo_get. destruct (i <? 0); [reflexivity|].
  destruct (_ !! _); reflexivity.
Qed.

Lemma size_memo_set (i v : Z) : keeps_size (memo_set i v).
Proof.
  intros fr. unfold memo_set. destruct (_ || _); [reflexivity|].
  cbn [snd memoizationVect]. apply length_insert.
Qed.

Lemma size_for_each (it : list Z) (body : Z -> Z -> M Z) :
  (forall m d, keeps_size (body m d)) ->
  forall min_val, keeps_size (for_each it body min_val).
Proof.
  intros Hb. induction it as [|d rest IH]; intros min_val; cbn [for_each].
  - apply size_ret.
  - apply size_bind; [apply Hb | intros a; apply IH].
Qed.

Lemma size_stamp_body (rec : Z -> M Z) (request min_val d : Z) :
  (forall r, keeps_size (rec r)) ->
  keeps_size (stamp_body rec request min_val d).
Proof.
  intros Hrec. unfold stamp_body.
  apply size_bind; [apply size_int_div|]. intros q.
  destruct (q >? 0); [|apply size_ret].
  apply size_bind; [apply size_int_div|]. intros q'.
  apply size_bind; [apply size_int_rem|]. intros r.
  apply size_bind; [apply Hrec|]. intros n.
  apply size_bind; [apply size_int_add|]. intros t.
  apply size_ret.
Qed.

Lemma size_CalcNumStamps (fuel : nat) :
  forall request, keeps_size (CalcNumStamps fuel request).
Proof.
  induction fuel as [|fuel IH]; intros request.
  - apply size_abort.
  - rewrite CalcNumStamps_S.
    apply size_bind; [apply size_memo_get|]. intros cached.
    destruct (cached >=? 0); [apply size_memo_get|].
    destruct (0 =? request); [apply size_ret|].
    apply size_bind.
    + intros fr. apply size_for_each. intros m d.
      apply size_stamp_body, IH.
    + intros min_val. apply size_bind; [apply size_memo_set|].
      intros _. apply size_ret.
Qed.

End Size.

(** ** More fuel changes nothing *)

Section MoreFuel.

Lemma agrees_refl {A} (c : M A) : agrees c c.
Proof. intros fr _. reflexivity. Qed.

Lemma agrees_bind {A B} (c1 c2 : M A) (k1 k2 : A -> M B) :
  agrees c1 c2 -> (forall a, agrees (k1 a) (k2 a)) ->
  agrees (bind c1 k1) (bind c2 k2).
Proof.
  intros Hc Hk fr H. unfold bind in *. specialize (Hc fr).
  destruct (c1 fr) as [[a|f] fr'] eqn:E; cbn [fst] in *.
  - rewrite Hc by discriminate. apply Hk. exact H.
  - rewrite Hc; [reflexivity|]. intros [= ->]. now apply H.
Qed.

Lemma agrees_for_each (it : list Z) (body1 body2 : Z -> Z -> M Z) :
  (forall m d, agrees (body1 m d) (body2 m d)) ->
  forall min_val, agrees (for_each it body1 min_val) (for_each it body2 min_val).
Proof.
  intros Hb. induction it as [|d rest IH]; intros min_val; cbn [for_each].
  - apply agrees_refl.
  - apply agrees_bind; [apply Hb | intros a; apply IH].
Qed.

Lemma agrees_stamp_body (rec1 rec2 : Z -> M Z) (request min_val d : Z) :
  (forall r, agrees (rec1 r) (rec2 r)) ->
  agrees (stamp_body rec1 request min_val d) (stamp_body rec2 request min_val d).
Proof.
  intros Hrec. unfold stamp_body.
  apply agrees_bind; [apply agrees_refl|]. intros q.
  destruct (q >? 0); [|apply agrees_refl].
  apply agrees_bind; [apply agrees_refl|]. intros q'.
  apply agrees_bind; [apply agrees_refl|]. intros r.
  apply agrees_bind; [apply Hrec|]. intros n. apply agrees_refl.
Qed.

Lemma agrees_CalcNumStamps_S (fuel : nat) :
  forall request, agrees (CalcNumStamps fuel request) (CalcNumStamps (S fuel) request).
Proof.
  induction fuel as [|fuel IH]; intros request.
  - intros fr H. now destruct H.
  - rewrite (CalcNumStamps_S (S fuel)), (CalcNumStamps_S fuel).
    apply agrees_bind; [apply agrees_refl|]. intros cached.
    destruct (cached >=? 0); [apply agrees_refl|].
    destruct (0 =? request); [apply agrees_refl|].
    apply agrees_bind; [|intros min_val; apply agrees_refl].
    intros fr. apply agrees_for_each. intros m d.
    apply agrees_stamp_body, IH.
Qed.

Lemma agrees_CalcNumStamps (fuel fuel' : nat) (request : Z) :
  (fuel <= fuel')%nat ->
  agrees (CalcNumStamps fuel request) (CalcNumStamps fuel' request).
Proof.
  induction 1 as [|fuel' Hle IH]; [apply agrees_refl|].
  intros fr H. rewrite <- (IH fr H).
  apply agrees_CalcNumStamps_S. rewrite (IH fr H). exact H.
Qed.

End MoreFuel.

(** ** How deep the recursion goes *)

Section Depth.

Lemma filter_length_le (p q : Z -> bool) (l : list Z) :
  (forall x, p x = true -> q x = true) ->
  (length (List.filter p l) <= length (List.filter q l))%nat.
Proof.
  intros Hpq. induction l as [|x l IH]; cbn [List.filter]; [lia|].
  destruct (p x) eqn:Ep.
  - rewrite (Hpq x Ep). cbn [length]. lia.
  - destruct (q x); cbn [length]; lia.
Qed.

Lemma filter_length_lt (p q : Z -> bool) (l : list Z) (d : Z) :
  (forall x, p x = true -> q x = true) ->
  In d l -> q d = true -> p d = false ->
  (length (List.filter p l) < length (List.filter q l))%nat.
Proof.
  intros Hpq Hin Hq Hp. induction l as [|x l IH]; [destruct Hin|].
  cbn [List.filter]. destruct Hin as [->|Hin].
  - rewrite Hp, Hq. cbn [length].
    pose proof (filter_length_le p q l Hpq). lia.
  - specialize (IH Hin). destruct (p x) eqn:Ep.
    + rewrite (Hpq x Ep). cbn [length]. lia.
    + destruct (q x); cbn [length]; lia.
Qed.

(** The remainder left by a usable stamp can use fewer stamps than the
    request could: the stamp itself has dropped out. *)
Lemma usable_stamps_shrink (dens : list Z) (request d r : Z) :
  In d dens -> 0 < d <= request -> r < d ->
  (length (usable_stamps dens r) < length (usable_stamps dens request))%nat.
Proof.
  intros Hin Hd Hr. unfold usable_stamps.
  apply filter_length_lt with (d := d); [|assumption|lia|lia].
  intros x Hx. apply andb_true_iff in Hx as [H1 H2].
  apply andb_true_iff. split; [assumption|]. lia.
Qed.

Lemma fuelled_fuelled_on (s : StampDispenser) {A} (c : M A) :
  fuelled c -> fuelled_on s c.
Proof. intros Hc fr _. apply Hc. Qed.

Lemma fuelled_on_bind (s : StampDispenser) {A B} (c : M A) (k : A -> M B) :
  keeps_this c -> fuelled_on s c ->
  (forall a fr fr', c fr = (Ok a, fr') -> fuelled_on s (k a)) ->
  fuelled_on s (bind c k).
Proof.
  intros Hkeep Hc Hk fr Hs. unfold bind.
  specialize (Hc fr Hs). specialize (Hkeep fr).
  destruct (c fr) as [[a|f] fr'] eqn:E; cbn [fst snd] in *.
  - eapply Hk; [eassumption | congruence].
  - intros [= ->]. now apply Hc.
Qed.

Lemma keeps_stamp_body (rec : Z -> M Z) (request min_val d : Z) :
  (forall r, keeps_this (rec r)) ->
  keeps_this (stamp_body rec request min_val d).
Proof.
  intros Hrec. unfold stamp_body.
  apply keeps_bind; [apply keeps_int_div|]. intros q.
  destruct (q >? 0); [|apply keeps_ret].
  apply keeps_bind; [apply keeps_int_div|]. intros q'.
  apply keeps_bind; [apply keeps_int_rem|]. intros r.
  apply keeps_bind; [apply Hrec|]. intros n.
  apply keeps_bind; [apply keeps_int_add|]. intros t.
  apply keeps_ret.
Qed.

Lemma fuelled_on_for_each (s : StampDispenser) (it : list Z)
    (body : Z -> Z -> M Z) :
  (forall m d, In d it -> keeps_this (body m d) /\ fuelled_on s (body m d)) ->
  forall min_val, fuelled_on s (for_each it body min_val).
Proof.
  induction it as [|d rest IH]; intros Hb min_val; cbn [for_each].
  - apply fuelled_fuelled_on, fuelled_ret.
  - destruct (Hb min_val d (or_introl eq_refl)) as [Hk Hf].
    apply fuelled_on_bind; [assumption | assumption |].
    intros a fr fr' _. apply IH. intros m d' Hin. apply Hb. now right.
Qed.

(** One unit of fuel per stamp the request can use, and one more, is
    enough. *)
Lemma fuelled_on_CalcNumStamps (s : StampDispenser) (fuel : nat) :
  forall request,
    0 <= request ->
    (length (usable_stamps (m_denominationVector s) request) < fuel)%nat ->
    fuelled_on s (CalcNumStamps fuel request).
Proof.
  induction fuel as [|fuel IH]; intros request Hr Hf; [lia|].
  rewrite CalcNumStamps_S.
  apply fuelled_on_bind;
    [apply keeps_memo_get | apply fuelled_fuelled_on, fuelled_memo_get|].
  intros cached fr0 fr1 _.
  destruct (cached >=? 0); [apply fuelled_fuelled_on, fuelled_memo_get|].
  destruct (0 =? request); [apply fuelled_fuelled_on, fuelled_ret|].
  apply fuelled_on_bind.
  - intros fr. apply keeps_for_each. intros m d.
    apply keeps_stamp_body, keeps_CalcNumStamps.
  - intros fr Hs. rewrite Hs.
    refine (fuelled_on_for_each s _ _ _ _ fr Hs). intros m d Hin.
    split; [apply keeps_stamp_body, keeps_CalcNumStamps|].
    unfold stamp_body.
    apply fuelled_on_bind;
      [apply keeps_int_div | apply fuelled_fuelled_on, fuelled_int_div|].
    intros q fr2 fr3 Hq. apply int_div_inv in Hq as ->.
    destruct (Z.gtb_spec (Z.quot request d) 0) as [Hq|Hq];
      [|apply fuelled_fuelled_on, fuelled_ret].
    destruct (usable_stamp request d Hr ltac:(lia)) as (Hd & Hrem & _).
    apply fuelled_on_bind;
      [apply keeps_int_div | apply fuelled_fuelled_on, fuelled_int_div|].
    intros q fr4 fr5 _.
    apply fuelled_on_bind;
      [apply keeps_int_rem | apply fuelled_fuelled_on, fuelled_int_rem|].
    intros r fr6 fr7 Hrm. apply int_rem_inv in Hrm as ->.
    apply fuelled_on_bind; [apply keeps_CalcNumStamps | |].
    + apply IH; [lia|].
      pose proof (usable_stamps_shrink (m_denominationVector s) request d
                    (Z.rem request d) Hin Hd ltac:(lia)). lia.
    + intros n fr8 fr9 _.
      apply fuelled_on_bind;
        [apply keeps_int_add | apply fuelled_fuelled_on, fuelled_int_add|].
      intros t fr10 fr11 _. apply fuelled_fuelled_on, fuelled_ret.
  - intros min_val fr2 fr3 _.
    apply fuelled_on_bind;
      [apply keeps_memo_set | apply fuelled_fuelled_on, fuelled_memo_set|].
    intros _ fr4 fr5 _. apply fuelled_fuelled_on, fuelled_ret.
Qed.

End Depth.

(** X1. The recursion of [CalcNumStamps] never nests deeper than one call
    per stamp the request can use, plus one, however large the request:
    run with that much fuel on any vector it is never cut short, and it
    ends exactly as the run [CalcNumStampsToFillRequest] starts does. *)
Theorem recursion_depth_bounded (s : StampDispenser) (request : Z) (memo : list Z) :
  0 <= request ->
  let fr := {| this := s; memoizationVect := memo |} in
  let depth := S (length (usable_stamps (m_denominationVector s) request)) in
  fst (CalcNumStamps depth request fr) <> Abort OutOfFuel /\
  CalcNumStamps depth request fr
    = CalcNumStamps (S (Z.to_nat request)) request fr.
Proof.
  intros Hr fr depth.
  assert (H1 : fst (CalcNumStamps depth request fr) <> Abort OutOfFuel)
    by (apply (fuelled_on_CalcNumStamps s depth request Hr);
        [unfold depth; lia | reflexivity]).
  assert (H2 : fst (CalcNumStamps (S (Z.to_nat request)) request fr)
               <> Abort OutOfFuel)
    by (apply (fuelled_CalcNumStamps _ request Hr); lia).
  split; [exact H1|].
  destruct (Nat.le_ge_cases depth (S (Z.to_nat request))) as [Hle|Hle].
  - symmetry. now apply (agrees_CalcNumStamps _ _ request Hle).
  - now apply (agrees_CalcNumStamps _ _ request Hle).
Qed.

Lemma recursion_depth_bounded_witness :
  0 <= 1000 /\
  CalcNumStamps 4 1000
    {| this := {| m_denominationVector := stampDenominations2 |};
       memoizationVect := replicate 1001 (-1) |}
  = CalcNumStamps 1001 1000
      {| this := {| m_denominationVector := stampDenominations2 |};
         memoizationVect := replicate 1001 (-1) |}.
Proof.
  split; [lia|].
  exact (proj2 (recursion_depth_bounded
                  {| m_denominationVector := stampDenominations2 |} 1000
                  (replicate 1001 (-1)) ltac:(lia))).
Defined.

(** X2. Whatever its arguments and however it ends, [CalcNumStamps] hands
    back the same object and a vector of the same size: it never touches
    the denominations and never resizes the vector it was given. *)
Theorem CalcNumStamps_frame (fuel : nat) (request : Z) (fr : frame) :
  this (snd (CalcNumStamps fuel request fr)) = this fr /\
  length (memoizationVect (snd (CalcNumStamps fuel request fr)))
    = length (memoizationVect fr).
Proof. split; [apply keeps_CalcNumStamps | apply size_CalcNumStamps]. Qed.

(** ** What a returned count leaves in the vector *)

Section Returned.

Lemma bind_inv {A B} (c : M A) (k : A -> M B) (fr fr' : frame) (b : B) :
  bind c k fr = (Ok b, fr') ->
  exists a fr1, c fr = (Ok a, fr1) /\ k a fr1 = (Ok b, fr').
Proof.
  unfold bind. destruct (c fr) as [[a|f] fr1]; [|discriminate].
  intros H. now exists a, fr1.
Qed.

Lemma ret_inv {A} (a b : A) (fr fr' : frame) :
  ret a fr = (Ok b, fr') -> b = a /\ fr' = fr.
Proof. now intros [= <- <-]. Qed.

Lemma memo_get_inv (i v : Z) (fr fr' : frame) :
  memo_get i fr = (Ok v, fr') ->
  0 <= i /\ memoizationVect fr !! Z.to_nat i = Some v /\ fr' = fr.
Proof.
  unfold memo_get. destruct (Z.ltb_spec i 0); [discriminate|].
  destruct (_ !! _) as [x|]; [|discriminate]. now intros [= <- <-].
Qed.

Lemma memo_set_inv (i v : Z) (fr fr' : frame) (u : unit) :
  memo_set i v fr = (Ok u, fr') ->
  0 <= i < Z.of_nat (length (memoizationVect fr)) /\
  fr' = {| this := this fr;
           memoizationVect := <[Z.to_nat i := v]> (memoizationVect fr) |}.
Proof.
  unfold memo_set.
  destruct (Z.ltb_spec i 0); [discriminate|].
  destruct (Z.leb_spec (Z.of_nat (length (memoizationVect fr))) i);
    [discriminate|].
  cbn [orb]. intros [= _ <-]. split; [lia | reflexivity].
Qed.

Lemma int_add_inv (a b t : Z) (fr fr' : frame) :
  int_add a b fr = (Ok t, fr') -> t = a + b.
Proof.
  unfold int_add. destruct (is_intb _); [|discriminate]. now intros [= <- _].
Qed.

Lemma stamp_body_nonneg (rec : Z -> M Z) (request : Z) :
  (forall r fr v fr', rec r fr = (Ok v, fr') -> 0 <= v) ->
  forall min_val d fr v fr',
    stamp_body rec request min_val d fr = (Ok v, fr') ->
    0 <= min_val -> 0 <= v.
Proof.
  intros Hrec min_val d fr v fr' H Hm. unfold stamp_body in H.
  apply bind_inv in H as (q & fr1 & Hq & H).
  destruct (Z.gtb_spec q 0) as [Hpos|Hnpos].
  - apply bind_inv in H as (q' & fr2 & Hq' & H).
    apply bind_inv in H as (r & fr3 & _ & H).
    apply bind_inv in H as (n & fr4 & Hn & H).
    apply bind_inv in H as (t & fr5 & Ht & H).
    apply ret_inv in H as [-> _].
    apply int_add_inv in Ht as ->.
    apply int_div_inv in Hq as ->. apply int_div_inv in Hq' as ->.
    apply Hrec in Hn. lia.
  - apply ret_inv in H as [-> _]. assumption.
Qed.

Lemma for_each_nonneg (body : Z -> Z -> M Z) :
  (forall min_val d fr v fr',
      body min_val d fr = (Ok v, fr') -> 0 <= min_val -> 0 <= v) ->
  forall it min_val fr v fr',
    for_each it body min_val fr = (Ok v, fr') -> 0 <= min_val -> 0 <= v.
Proof.
  intros Hb. induction it as [|d rest IH]; intros min_val fr v fr' H Hm;
    cbn [for_each] in H.
  - apply ret_inv in H as [-> _]. assumption.
  - apply bind_inv in H as (m' & fr1 & Hd & H).
    eapply IH; [exact H|]. eapply Hb; eassumption.
Qed.

(** No call returns a negative count. *)
Lemma CalcNumStamps_nonneg (fuel : nat) :
  forall request fr v fr',
    CalcNumStamps fuel request fr = (Ok v, fr') -> 0 <= v.
Proof.
  induction fuel as [|fuel IH]; intros request fr v fr' H; [discriminate|].
  rewrite CalcNumStamps_S in H.
  apply bind_inv in H as (cached & fr1 & Hc & H).
  apply memo_get_inv in Hc as (_ & Hc & ->).
  destruct (Z.geb_spec cached 0) as [Hpos|Hneg].
  - apply memo_get_inv in H as (_ & H & _). congruence.
  - destruct (0 =? request).
    + apply ret_inv in H as [-> _]. lia.
    + apply bind_inv in H as (m & fr2 & Hloop & H).
      apply bind_inv in H as (u & fr3 & _ & H).
      apply ret_inv in H as [-> _].
      eapply for_each_nonneg; [|exact Hloop|unfold INT_MAX; lia].
      apply stamp_body_nonneg. exact IH.
Qed.

(** A count returned for a request other than 0 is in the vector. *)
Lemma CalcNumStamps_stored (fuel : nat) (request : Z) (fr fr' : frame) (v : Z) :
  CalcNumStamps fuel request fr = (Ok v, fr') ->
  request <> 0 ->
  0 <= request /\ memoizationVect fr' !! Z.to_nat request = Some v.
Proof.
  destruct fuel as [|fuel]; [discriminate|].
  intros H Hne. rewrite CalcNumStamps_S in H.
  apply bind_inv in H as (cached & fr1 & Hc & H).
  apply memo_get_inv in Hc as (Hr & Hc & ->).
  split; [assumption|].
  destruct (cached >=? 0).
  - apply memo_get_inv in H as (_ & H & ->). assumption.
  - destruct (Z.eqb_spec 0 request) as [|_]; [congruence|].
    apply bind_inv in H as (m & fr2 & _ & H).
    apply bind_inv in H as (u & fr3 & Hset & H).
    apply ret_inv in H as [-> ->].
    apply memo_set_inv in Hset as [Hin ->]. cbn [memoizationVect].
    apply list_lookup_insert_eq. lia.
Qed.

End Returned.

(** X3. Every count [CalcNumStamps] returns is non-negative.  When the
    request is not 0 the count sits in the vector at the index of the request
    afterwards, and a further call with the same request on the vector left
    behind returns it again without changing anything, whatever the stamps and
    whatever its fuel. *)
Theorem returned_count_is_cached (fuel : nat) (request v : Z) (fr fr' : frame) :
  CalcNumStamps fuel request fr = (Ok v, fr') ->
  0 <= v /\
  (request <> 0 ->
   memoizationVect fr' !! Z.to_nat request = Some v /\
   forall fuel', CalcNumStamps (S fuel') request fr' = (Ok v, fr')).
Proof.
  intros H. pose proof (CalcNumStamps_nonneg _ _ _ _ _ H) as Hv.
  split; [exact Hv|]. intros Hne.
  destruct (CalcNumStamps_stored _ _ _ _ _ H Hne) as [Hr Hst].
  split; [exact Hst|]. intros fuel'. rewrite CalcNumStamps_S.
  rewrite (bind_Ok _ _ _ _ _ (memo_get_Ok request v fr' Hr Hst)).
  destruct (Z.geb_spec v 0); [|lia].
  now apply memo_get_Ok.
Qed.

Lemma returned_count_is_cached_witness :
  let fr := {| this := {| m_denominationVector := stampDenominations2 |};
               memoizationVect := replicate 9 (-1) |} in
  CalcNumStamps 9 8 fr = (Ok 2, snd (CalcNumStamps 9 8 fr)) /\
  memoizationVect (snd (CalcNumStamps 9 8 fr)) !! 8%nat = Some 2.
Proof.
  intros fr.
  assert (H : CalcNumStamps 9 8 fr = (Ok 2, snd (CalcNumStamps 9 8 fr)))
    by (vm_compute; reflexivity).
  split; [exact H|].
  exact (proj1 (proj2 (returned_count_is_cached 9 8 2 fr _ H) ltac:(lia))).
Defined.

(** X4. [CalcNumStamps] has no guard of its own: called with a negative
    request, or with a vector that has no entry at the index of the request,
    its first statement indexes the vector out of range, before it looks at
    a stamp. *)
Theorem CalcNumStamps_unguarded (fuel : nat) (request : Z) (fr : frame) :
  request < 0 \/ Z.of_nat (length (memoizationVect fr)) <= request ->
  CalcNumStamps (S fuel) request fr = (Abort IndexOutOfRange, fr).
Proof.
  intros H. rewrite CalcNumStamps_S.
  erewrite bind_Abort; [reflexivity|]. unfold memo_get.
  destruct (Z.ltb_spec request 0); [reflexivity|].
  rewrite (lookup_ge_None_2 (memoizationVect fr) (Z.to_nat request)) by lia.
  reflexivity.
Qed.

Lemma CalcNumStamps_unguarded_witness :
  (8 < 0 \/ Z.of_nat (length [-1; -1; -1]) <= 8) /\
  CalcNumStamps 9 8
    {| this := {| m_denominationVector := stampDenominations2 |};
       memoizationVect := [-1; -1; -1] |}
  = (Abort IndexOutOfRange,
     {| this := {| m_denominationVector := stampDenominations2 |};
        memoizationVect := [-1; -1; -1] |}).
Proof.
  assert (H : 8 < 0 \/ Z.of_nat (length [-1; -1; -1]) <= 8)
    by (right; simpl; lia).
  split; [exact H|].
  exact (CalcNumStamps_unguarded 8 8
           {| this := {| m_denominationVector := stampDenominations2 |};
              memoizationVect := [-1; -1; -1] |} H).
Defined.

(** X5. On a dispenser built from stamps without a 0, [CalcNumStamps] may be
    handed any vector with an entry for the request whose filled entries are
    the counts the query gives for their indices: it returns the count the
    query gives for the request, and the filled entries of the vector it
    leaves are again the counts of their indices. *)
Theorem prefilled_vector_is_used (l : list Z) (s : StampDispenser)
    (fuel : nat) (request : Z) (memo : list Z) :
  new_StampDispenser l = Ok s -> ~ In 0 l ->
  0 <= request < Z.of_nat (length memo) ->
  Z.of_nat (length memo) <= INT_MAX ->
  (Z.to_nat request < fuel)%nat ->
  (forall (i : nat) (v : Z),
      memo !! i = Some v -> 0 <= v -> minCount s (Z.of_nat i) = Ok v) ->
  exists v memo',
    CalcNumStamps fuel request {| this := s; memoizationVect := memo |}
      = (Ok v, {| this := s; memoizationVect := memo' |}) /\
    minCount s request = Ok v /\
    length memo' = length memo /\
    (forall (i : nat) (x : Z),
        memo' !! i = Some x -> 0 <= x -> minCount s (Z.of_nat i) = Ok x).
Proof.
  intros Hnew H0 Hr Hlen Hf Hfilled.
  destruct (new_StampDispenser_Ok l s Hnew) as [Hl Hv].
  assert (H1 : In 1 (m_denominationVector s)) by (rewrite Hl; apply Hv).
  rewrite <- Hl in H0.
  assert (Hq : forall r, 0 <= r < INT_MAX ->
                         minCount s r = Ok (numStamps (m_denominationVector s) r)).
  { intros r Hrr. unfold minCount.
    now rewrite (CalcNumStampsToFillRequest_ok s H0 H1 r Hrr). }
  assert (Hok : memo_ok (m_denominationVector s) memo).
  { intros i v Hi Hpos. pose proof (lookup_lt_Some _ _ _ Hi) as Hlt.
    specialize (Hfilled i v Hi Hpos). rewrite Hq in Hfilled by lia.
    congruence. }
  destruct (CalcNumStamps_ok s H0 H1 fuel request memo)
    as (memo' & Hrun & Hlen' & Hok'); [lia | assumption | lia | assumption |].
  exists (numStamps (m_denominationVector s) request), memo'.
  split; [exact Hrun|]. split; [apply Hq; lia|]. split; [exact Hlen'|].
  intros i x Hi Hpos. pose proof (lookup_lt_Some _ _ _ Hi) as Hlt.
  rewrite Hq by lia. f_equal. symmetry. now apply Hok'.
Qed.

Lemma prefilled_vector_is_used_witness :
  exists v memo',
    CalcNumStamps 9 8
      {| this := {| m_denominationVector := stampDenominations2 |};
         memoizationVect := [-1; 1; 2; -1; 1; -1; -1; -1; -1; -1; -1] |}
      = (Ok v, {| this := {| m_denominationVector := stampDenominations2 |};
                  memoizationVect := memo' |}) /\
    minCount {| m_denominationVector := stampDenominations2 |} 8 = Ok v /\
    length memo' = length [-1; 1; 2; -1; 1; -1; -1; -1; -1; -1; -1] /\
    (forall (i : nat) (x : Z),
        memo' !! i = Some x -> 0 <= x ->
        minCount {| m_denominationVector := stampDenominations2 |} (Z.of_nat i)
          = Ok x).
Proof.
  apply (prefilled_vector_is_used stampDenominations2).
  - reflexivity.
  - simpl; lia.
  - simpl; lia.
  - unfold INT_MAX; simpl; lia.
  - lia.
  - intros i v Hi Hpos.
    do 11 (destruct i as [|i];
           [cbn in Hi; injection Hi as <-; first [lia | vm_compute; reflexivity]|]).
    discriminate.
Defined.

(** ** What the count is worth *)

Section Worth.

Lemma sum_app (a b : list Z) :
  fold_right Z.add 0 (a ++ b) = fold_right Z.add 0 a + fold_right Z.add 0 b.
Proof. induction a as [|x a IH]; cbn [app fold_right]; lia. Qed.

Lemma sum_replicate (n : nat) (d : Z) :
  fold_right Z.add 0 (replicate n d) = Z.of_nat n * d.
Proof. induction n as [|n IH]; cbn [replicate fold_right]; lia. Qed.

Lemma Forall_In_replicate (dens : list Z) (n : nat) (d : Z) :
  In d dens -> List.Forall (fun x => In x dens) (replicate n d).
Proof.
  intros Hd. induction n as [|n IH]; cbn [replicate]; constructor; assumption.
Qed.

(** The count of the recurrence is the size of a pile of stamps that adds up
    to the request: as many of one usable stamp as fit, then a pile for the
    remainder. *)
Lemma numStamps_fills (dens : list Z) :
  In 1 dens ->
  forall request,
    0 <= request -> request < INT_MAX ->
    exists stamps,
      fills dens stamps request /\
      numStamps dens request = Z.of_nat (length stamps).
Proof.
  intros H1.
  apply (Zlt_0_ind (fun request =>
           request < INT_MAX ->
           exists stamps, fills dens stamps request /\
                          numStamps dens request = Z.of_nat (length stamps))).
  intros request IH Hr Hmax.
  destruct (Z.eq_dec request 0) as [->|Hne].
  { exists []. split; [split; [constructor | reflexivity] | reflexivity]. }
  pose proof (numStamps_bounds dens H1 request Hr) as Hb.
  rewrite numStamps_unfold in * by lia.
  destruct (fold_candidate_min (numStamps dens) request dens INT_MAX)
    as (_ & _ & Hex).
  destruct Hex as [Hv|(d & Hd & Hq & Hv)]; [lia|].
  destruct (usable_stamp request d Hr Hq) as (Hdr & Hrem & _).
  destruct (IH (Z.rem request d)) as (rest & [Hall Hsum] & Hlen); [lia | lia |].
  exists (replicate (Z.to_nat (Z.quot request d)) d ++ rest). split; [split|].
  - apply List.Forall_app. split; [now apply Forall_In_replicate | assumption].
  - rewrite sum_app, sum_replicate, Hsum, Z2Nat.id by lia.
    pose proof (Z.quot_rem' request d). lia.
  - rewrite Hv, Hlen, length_app, length_replicate. lia.
Qed.

(** A larger stock of stamps never raises the count. *)
Lemma numStamps_incl (l l' : list Z) :
  (forall d, In d l -> In d l') ->
  forall request, 0 <= request -> numStamps l' request <= numStamps l request.
Proof.
  intros Hincl.
  apply (Zlt_0_ind (fun request => numStamps l' request <= numStamps l request)).
  intros request IH Hr.
  destruct (Z.eq_dec request 0) as [->|Hne]; [rewrite !numStamps_0; lia|].
  rewrite (numStamps_unfold l), (numStamps_unfold l') by lia.
  destruct (fold_candidate_min (numStamps l) request l INT_MAX)
    as (_ & _ & Hex).
  destruct (fold_candidate_min (numStamps l') request l' INT_MAX)
    as (Hle' & Hall' & _).
  destruct Hex as [->|(d & Hd & Hq & ->)]; [exact Hle'|].
  destruct (usable_stamp request d Hr Hq) as (Hdr & Hrem & _).
  specialize (Hall' d (Hincl d Hd) Hq).
  specialize (IH (Z.rem request d) ltac:(lia)). lia.
Qed.

Lemma greedy_0 (ds : list Z) : greedy ds 0 = 0.
Proof.
  induction ds as [|d ds IH]; cbn [greedy]; [reflexivity|].
  destruct (0 <? d); [|assumption].
  rewrite Zdiv_0_l, Zmod_0_l, IH. reflexivity.
Qed.

(** The count of the recurrence is at most what the cashier's algorithm
    spends on any part of the stock that holds a stamp of value 1. *)
Lemma numStamps_le_greedy (l : list Z) :
  In 1 l ->
  forall ds,
    (forall d, In d ds -> In d l) -> In 1 ds ->
    forall request, 0 <= request -> numStamps l request <= greedy ds request.
Proof.
  intros H1. induction ds as [|d ds IH]; intros Hsub Hone request Hr;
    [destruct Hone|].
  cbn [greedy].
  assert (Hsub' : forall x, In x ds -> In x l) by (intros x Hx; apply Hsub; now right).
  destruct (Z.ltb_spec 0 d) as [Hd|Hd].
  2:{ destruct Hone as [->|Hone]; [lia|]. now apply IH. }
  destruct (Z.eq_dec d 1) as [->|Hd1].
  { rewrite Z.div_1_r, Z.mod_1_r, greedy_0.
    pose proof (numStamps_bounds l H1 request Hr). lia. }
  destruct Hone as [->|Hone]; [congruence|].
  destruct (Z.le_gt_cases d request) as [Hle|Hgt].
  - rewrite numStamps_unfold by lia.
    destruct (fold_candidate_min (numStamps l) request l INT_MAX)
      as (_ & Hall & _).
    assert (Hq : Z.quot request d > 0).
    { rewrite Z.quot_div_nonneg by lia.
      assert (1 <= request / d) by (apply Z.div_le_lower_bound; lia). lia. }
    specialize (Hall d (Hsub d (or_introl eq_refl)) Hq).
    rewrite Z.quot_div_nonneg, Z.rem_mod_nonneg in Hall by lia.
    pose proof (Z.mod_pos_bound request d Hd).
    specialize (IH Hsub' Hone (request mod d) ltac:(lia)). lia.
  - rewrite Z.div_small, Z.mod_small by lia. now apply IH.
Qed.

Lemma non_increasing_head_max (x : Z) (l : list Z) :
  non_increasing (x :: l) -> forall y, In y (x :: l) -> y <= x.
Proof.
  revert x. induction l as [|z l IH]; intros x Hni y [<-|Hy]; try lia.
  - destruct Hy.
  - apply non_increasing_cons in Hni as [Hhd Hni].
    specialize (Hhd z eq_refl). specialize (IH z Hni y Hy). lia.
Qed.

Lemma sum_le_length (dens stamps : list Z) (dmax : Z) :
  (forall y, In y dens -> y <= dmax) ->
  List.Forall (fun x => In x dens) stamps ->
  fold_right Z.add 0 stamps <= Z.of_nat (length stamps) * dmax.
Proof.
  intros Hmax. induction 1 as [|x stamps Hx _ IH]; cbn [fold_right length]; [lia|].
  specialize (Hmax x Hx). lia.
Qed.

End Worth.

(** What a dispenser built from stamps without a 0 answers to a request
    below [INT_MAX]. *)
Lemma minCount_numStamps (l : list Z) (s : StampDispenser) (request : Z) :
  new_StampDispenser l = Ok s -> ~ In 0 l ->
  0 <= request < INT_MAX ->
  minCount s request = Ok (numStamps l request) /\ In 1 l.
Proof.
  intros Hnew H0 Hr.
  destruct (new_StampDispenser_Ok l s Hnew) as [Hl Hv].
  assert (H1 : In 1 l) by apply Hv. split; [|exact H1].
  unfold minCount. rewrite <- Hl in *.
  now rewrite (CalcNumStampsToFillRequest_ok s H0 H1 request Hr).
Qed.

(** X6. On a dispenser built from stamps without a 0 the count the query
    returns can be dispensed: there is a pile of stamps of the dispenser, of
    exactly that size, whose values add up to the request. *)
Theorem count_can_be_dispensed (l : list Z) (s : StampDispenser) (request : Z) :
  new_StampDispenser l = Ok s -> ~ In 0 l ->
  0 <= request < INT_MAX ->
  exists stamps,
    fills l stamps request /\
    minCount s request = Ok (Z.of_nat (length stamps)).
Proof.
  intros Hnew H0 Hr.
  destruct (minCount_numStamps l s request Hnew H0 Hr) as [Hq H1].
  destruct (numStamps_fills l H1 request) as (stamps & Hf & Hlen); [lia..|].
  exists stamps. split; [exact Hf|]. now rewrite Hq, Hlen.
Qed.

Lemma count_can_be_dispensed_witness :
  exists stamps,
    fills stampDenominations stamps 18 /\
    minCount {| m_denominationVector := stampDenominations |} 18
      = Ok (Z.of_nat (length stamps)).
Proof.
  apply (count_can_be_dispensed stampDenominations);
    [reflexivity | simpl; lia | unfold INT_MAX; lia].
Defined.

(** X7. On a dispenser built from stamps without a 0 the query answers 0 only
    to the request 0, and answers 1 to every request that is the value of one
    of its stamps. *)
Theorem one_stamp_for_a_stamp_value (l : list Z) (s : StampDispenser) (request : Z) :
  new_StampDispenser l = Ok s -> ~ In 0 l ->
  0 <= request < INT_MAX ->
  (minCount s request = Ok 0 <-> request = 0) /\
  (In request l -> minCount s request = Ok 1).
Proof.
  intros Hnew H0 Hr.
  destruct (minCount_numStamps l s request Hnew H0 Hr) as [Hq H1].
  destruct (numStamps_fills l H1 request) as (stamps & [_ Hsum] & Hlen); [lia..|].
  assert (Hpos : request <> 0 -> 1 <= numStamps l request).
  { intros Hne. destruct stamps as [|x stamps]; [simpl in Hsum; lia|].
    rewrite Hlen. cbn [length]. lia. }
  rewrite Hq. split.
  - split.
    + intros [= Hz]. destruct (Z.eq_dec request 0); [assumption|].
      specialize (Hpos n). lia.
    + intros ->. now rewrite numStamps_0.
  - intros Hin. f_equal.
    assert (Hne : request <> 0) by (intros ->; contradiction).
    specialize (Hpos Hne).
    pose proof (numStamps_unfold l request ltac:(lia)) as Hu.
    destruct (fold_candidate_min (numStamps l) request l INT_MAX)
      as (_ & Hall & _).
    rewrite <- Hu in Hall. specialize (Hall request Hin).
    rewrite Z.quot_same, Z.rem_same, numStamps_0 in Hall by assumption. lia.
Qed.

Lemma one_stamp_for_a_stamp_value_witness :
  In 24 stampDenominations /\
  minCount {| m_denominationVector := stampDenominations |} 24 = Ok 1.
Proof.
  assert (Hin : In 24 stampDenominations) by (simpl; tauto).
  split; [exact Hin|].
  apply (one_stamp_for_a_stamp_value stampDenominations);
    [reflexivity | simpl; lia | unfold INT_MAX; lia | exact Hin].
Defined.

(** X8. Of two dispensers built from stamps without a 0, the one that holds
    every stamp value of the other never answers a larger count. *)
Theorem more_stamps_never_hurt (l l' : list Z) (s s' : StampDispenser) (request : Z) :
  new_StampDispenser l = Ok s -> new_StampDispenser l' = Ok s' ->
  ~ In 0 l' ->
  (forall d, In d l -> In d l') ->
  0 <= request < INT_MAX ->
  exists v v', minCount s request = Ok v /\ minCount s' request = Ok v' /\
               v' <= v.
Proof.
  intros Hnew Hnew' H0' Hincl Hr.
  assert (H0 : ~ In 0 l) by (intros H; apply H0', Hincl, H).
  destruct (minCount_numStamps l s request Hnew H0 Hr) as [Hq _].
  destruct (minCount_numStamps l' s' request Hnew' H0' Hr) as [Hq' _].
  exists (numStamps l request), (numStamps l' request).
  split; [exact Hq|]. split; [exact Hq'|]. apply numStamps_incl; [assumption | lia].
Qed.

Lemma more_stamps_never_hurt_witness :
  exists v v',
    minCount {| m_denominationVector := [6; 1] |} 8 = Ok v /\
    minCount {| m_denominationVector := stampDenominations2 |} 8 = Ok v' /\
    v' <= v.
Proof.
  apply (more_stamps_never_hurt [6; 1] stampDenominations2);
    [reflexivity | reflexivity | simpl; lia | simpl; tauto | unfold INT_MAX; lia].
Defined.

(** X9. Two dispensers built from sequences in which the same values occur
    end every query on an [int] request in the same way: repeating a stamp
    in the sequence changes nothing. *)
Theorem same_values_same_answer (l l' : list Z) (s s' : StampDispenser) (request : Z) :
  new_StampDispenser l = Ok s -> new_StampDispenser l' = Ok s' ->
  (forall d, In d l <-> In d l') ->
  request <= INT_MAX ->
  minCount s request = minCount s' request.
Proof.
  intros Hnew Hnew' Hsame Hr. unfold minCount.
  destruct (new_StampDispenser_Ok l s Hnew) as [Hl Hv].
  destruct (new_StampDispenser_Ok l' s' Hnew') as [Hl' Hv'].
  destruct (Z.lt_ge_cases request 0) as [Hneg|Hpos].
  { unfold CalcNumStampsToFillRequest.
    destruct (Z.geb_spec request 0); [lia | reflexivity]. }
  destruct (Z.eq_dec request INT_MAX) as [->|Hne].
  { unfold CalcNumStampsToFillRequest.
    replace (negb (INT_MAX >=? 0)) with false by reflexivity.
    rewrite fill_memo_overflow; [reflexivity | unfold INT_MAX; lia | lia]. }
  destruct (Z.eq_dec request 0) as [->|Hnz]; [reflexivity|].
  destruct (in_dec Z.eq_dec 0 l) as [H0|H0].
  - assert (H0' : In 0 l') by now apply Hsame.
    rewrite <- Hl in H0. rewrite <- Hl' in H0'.
    rewrite (CalcNumStampsToFillRequest_zero_stamp s H0) by lia.
    rewrite (CalcNumStampsToFillRequest_zero_stamp s' H0') by lia.
    reflexivity.
  - assert (H0' : ~ In 0 l') by (intros H; now apply H0, Hsame).
    destruct (minCount_numStamps l s request Hnew H0 ltac:(lia)) as [Hq _].
    destruct (minCount_numStamps l' s' request Hnew' H0' ltac:(lia)) as [Hq' _].
    unfold minCount in Hq, Hq'. rewrite Hq, Hq'. f_equal.
    apply Z.le_antisymm; apply numStamps_incl; try lia;
      intros d Hd; now apply Hsame.
Qed.

Lemma same_values_same_answer_witness :
  minCount {| m_denominationVector := stampDenominations2 |} 8
  = minCount {| m_denominationVector := [6; 6; 4; 1; 1; 1] |} 8.
Proof.
  apply (same_values_same_answer stampDenominations2 [6; 6; 4; 1; 1; 1]);
    [reflexivity | reflexivity | simpl; tauto | unfold INT_MAX; lia].
Defined.

(** X10. On a dispenser built from stamps without a 0 the query never answers
    more than the cashier's algorithm spends, which takes the stamps in the
    order of the vector, each as often as it still fits. *)
Theorem never_worse_than_greedy (l : list Z) (s : StampDispenser) (request : Z) :
  new_StampDispenser l = Ok s -> ~ In 0 l ->
  0 <= request < INT_MAX ->
  exists v, minCount s request = Ok v /\ v <= greedy l request.
Proof.
  intros Hnew H0 Hr.
  destruct (minCount_numStamps l s request Hnew H0 Hr) as [Hq H1].
  exists (numStamps l request). split; [exact Hq|].
  apply numStamps_le_greedy; auto. lia.
Qed.

Lemma never_worse_than_greedy_witness :
  exists v,
    minCount {| m_denominationVector := stampDenominations2 |} 8 = Ok v /\
    v <= greedy stampDenominations2 8.
Proof.
  apply (never_worse_than_greedy stampDenominations2);
    [reflexivity | simpl; lia | unfold INT_MAX; lia].
Defined.

(** X11. On a dispenser built from stamps without a 0 the count the query
    returns, times the first and largest stamp, covers the request: the query
    never answers fewer stamps than the largest stamp alone would need. *)
Theorem count_covers_request (l : list Z) (s : StampDispenser) (request dmax : Z) :
  new_StampDispenser l = Ok s -> ~ In 0 l ->
  head l = Some dmax ->
  0 <= request < INT_MAX ->
  exists v, minCount s request = Ok v /\ request <= v * dmax.
Proof.
  intros Hnew H0 Hhd Hr.
  destruct (minCount_numStamps l s request Hnew H0 Hr) as [Hq H1].
  destruct (new_StampDispenser_Ok l s Hnew) as [_ (_ & Hni & _)].
  destruct (numStamps_fills l H1 request) as (stamps & [Hall Hsum] & Hlen); [lia..|].
  exists (numStamps l request). split; [exact Hq|].
  destruct l as [|x l]; [discriminate|]. injection Hhd as ->.
  pose proof (sum_le_length (dmax :: l) stamps dmax
                (non_increasing_head_max dmax l Hni) Hall). lia.
Qed.

Lemma count_covers_request_witness :
  exists v,
    minCount {| m_denominationVector := stampDenominations |} 18 = Ok v /\
    18 <= v * 90.
Proof.
  apply (count_covers_request stampDenominations);
    [reflexivity | simpl; lia | reflexivity | unfold INT_MAX; lia].
Defined.

(** ** Which assertion stops the constructor *)

Section WhichAssertion.

(** The loop walks through a good run without stopping and arrives at what
    follows it with the last value seen and the 1s noted. *)
Lemma ValidateInput_loop_app (l1 rest : list Z) :
  forall oneFound lastVal,
    non_increasing (lastVal :: l1) -> non_negative l1 ->
    ValidateInput_loop (l1 ++ rest) oneFound lastVal
    = ValidateInput_loop rest (oneFound || existsb (Z.eqb 1) l1)
        (List.last l1 lastVal).
Proof.
  induction l1 as [|x l1 IH]; intros oneFound lastVal Hni Hnn.
  - cbn [app existsb List.last]. now rewrite orb_false_r.
  - apply non_increasing_cons in Hni as [Hhd Hni]. specialize (Hhd x eq_refl).
    inversion Hnn as [|? ? Hx Hnn']; subst.
    cbn [app ValidateInput_loop existsb].
    destruct (Z.geb_spec lastVal x); [|lia].
    destruct (Z.geb_spec x 0); [|lia]. cbn [negb].
    rewrite IH by assumption.
    replace (List.last (x :: l1) lastVal) with (List.last l1 x)
      by (clear; revert x; induction l1 as [|y l1 IH]; intros x;
          [reflexivity | cbn [List.last]; destruct l1; [reflexivity | apply IH]]).
    f_equal. destruct (1 =? x), oneFound; reflexivity.
Qed.

Lemma ValidateInput_nonempty (x : Z) (l : list Z) :
  ValidateInput (x :: l)
  = match ValidateInput_loop (x :: l) false INT_MAX with
    | Abort f => Abort f
    | Ok oneFound => if oneFound then Ok true else Abort AssertOneFound
    end.
Proof.
  unfold ValidateInput.
  replace (negb (0 <? Z.of_nat (length (x :: l)))) with false
    by (symmetry; apply negb_false_iff, Z.ltb_lt; simpl; lia).
  reflexivity.
Qed.

Lemma new_StampDispenser_Abort (l : list Z) (f : fault) :
  new_StampDispenser l = Abort f <-> ValidateInput l = Abort f.
Proof.
  unfold new_StampDispenser.
  destruct (ValidateInput l) as [[|]|f']; split; intros H;
    first [discriminate | injection H as ->; reflexivity].
Qed.

End WhichAssertion.

(** X12. On a sequence of [int]s the constructor stops at
    [assert(oneFound)] exactly when the 1 is all that is missing: the
    sequence is non-empty, non-increasing and non-negative, and holds no 1.
    It stops at the first assertion exactly when the sequence is empty. *)
Theorem missing_one_is_reported_last (l : list Z) :
  Forall is_int l ->
  (new_StampDispenser l = Abort AssertOneFound <->
   l <> [] /\ non_increasing l /\ non_negative l /\ ~ In 1 l) /\
  (new_StampDispenser l = Abort AssertNumDenominations <-> l = []).
Proof.
  intros Hl. rewrite !new_StampDispenser_Abort.
  destruct l as [|x l].
  { split; split; try reflexivity; try discriminate. intros [H _]. now destruct H. }
  rewrite ValidateInput_nonempty.
  destruct (ValidateInput_loop (x :: l) false INT_MAX) as [b|f] eqn:E.
  - apply ValidateInput_loop_Ok in E as (Hni & Hnn & ->).
    rewrite non_increasing_INT_MAX in Hni by assumption.
    rewrite orb_false_l. rewrite <- existsb_eqb_In.
    destruct (existsb (Z.eqb 1) (x :: l)); split; split;
      try discriminate; try reflexivity.
    + intros (_ & _ & _ & H). now destruct H.
    + intros _. repeat split; [discriminate | assumption..| discriminate].
  - pose proof (ValidateInput_loop_Abort _ _ _ _ E) as [[-> H]|[-> H]];
      split; split; try discriminate.
    + rewrite non_increasing_INT_MAX in H by assumption. tauto.
    + tauto.
Qed.

Lemma missing_one_is_reported_last_witness :
  Forall is_int [4; 3; 2] /\
  new_StampDispenser [4; 3; 2] = Abort AssertOneFound.
Proof.
  assert (H : Forall is_int [4; 3; 2])
    by (repeat constructor; unfold INT_MIN, INT_MAX; lia).
  split; [exact H|].
  apply (proj1 (missing_one_is_reported_last [4; 3; 2] H)).
  split; [discriminate|]. split; [|split].
  - intros [|[|[|i]]] a b Ha Hb; cbn in Ha, Hb; try discriminate;
      injection Ha as <-; injection Hb as <-; lia.
  - repeat constructor; lia.
  - simpl; lia.
Defined.

(** X13. The first offending element decides how the constructor stops, and
    nothing after it is looked at.  After a good run of [int]s, an [int] above
    the last value of the run stops it at the descending-order assertion; an
    [int] not above it but negative stops it at the non-negative assertion. *)
Theorem first_offender_decides (l1 l2 : list Z) (x : Z) :
  Forall is_int l1 -> is_int x ->
  non_increasing l1 -> non_negative l1 ->
  (List.last l1 INT_MAX < x ->
   new_StampDispenser (l1 ++ x :: l2) = Abort AssertDescending) /\
  (x <= List.last l1 INT_MAX -> x < 0 ->
   new_StampDispenser (l1 ++ x :: l2) = Abort AssertNonNegative).
Proof.
  intros Hl1 Hx Hni Hnn.
  apply non_increasing_INT_MAX in Hni; [|assumption].
  assert (Hrun : ValidateInput (l1 ++ x :: l2)
                 = match ValidateInput_loop (x :: l2)
                           (false || existsb (Z.eqb 1) l1)
                           (List.last l1 INT_MAX) with
                   | Abort f => Abort f
                   | Ok oneFound =>
                       if oneFound then Ok true else Abort AssertOneFound
                   end).
  { rewrite <- (ValidateInput_loop_app l1 (x :: l2) false INT_MAX Hni Hnn).
    destruct l1 as [|y l1]; cbn [app]; apply ValidateInput_nonempty. }
  rewrite !new_StampDispenser_Abort, Hrun. cbn [ValidateInput_loop].
  split.
  - intros Hgt. destruct (Z.geb_spec (List.last l1 INT_MAX) x); [lia | reflexivity].
  - intros Hle Hneg.
    destruct (Z.geb_spec (List.last l1 INT_MAX) x); [|lia].
    destruct (Z.geb_spec x 0); [lia | reflexivity].
Qed.

Lemma first_offender_decides_witness :
  (new_StampDispenser ([1] ++ 2 :: [3]) = Abort AssertDescending) /\
  (new_StampDispenser ([4; 3; 2; 1] ++ -1 :: []) = Abort AssertNonNegative).
Proof.
  split.
  - apply (first_offender_decides [1] [3] 2).
    + repeat constructor; unfold INT_MIN, INT_MAX; lia.
    + unfold is_int, INT_MIN, INT_MAX; lia.
    + intros [|i] a b Ha Hb; cbn in Ha, Hb; discriminate.
    + repeat constructor; lia.
    + simpl; lia.
  - apply (first_offender_decides [4; 3; 2; 1] [] (-1)).
    + repeat constructor; unfold INT_MIN, INT_MAX; lia.
    + unfold is_int, INT_MIN, INT_MAX; lia.
    + intros [|[|[|[|i]]]] a b Ha Hb; cbn in Ha, Hb; try discriminate;
        injection Ha as <-; injection Hb as <-; lia.
    + repeat constructor; lia.
    + simpl; lia.
    + lia.
Defined.
